(** * CO2 and cost reduction calculator for energy flexibility measures

    A shallow embedding of the reduction-potential engine of the calculator
    (auxiliary_calculation.py, calculate_reduction_potential.py and, of
    read_and_write.py, the averages reader and the loop that builds the
    frame of measures) together with the properties of its specification
    and further properties of the code.

    Modelling conventions.
    - A Python float is an exact rational ([Q]); results are compared with
      [==].  The only non-finite float the source handles is NaN, which
      exists on raw input fields only ([pyfloat]) and is removed by
      [fillna_dict].
    - The one float sum whose last bit decides a branch between measures
      is the length of a retrieval cycle: [calc_measure_combo] tests two
      such lengths with [==].  There the rounding of each float addition
      is kept, as a parameter [float_round] of [calc_rc_length] about
      which nothing is assumed unless a theorem says so.
    - A Python exception is a value of [PyExn], carried by the error monad
      [Py]; a function that cannot raise is a plain function.
    - A pandas data frame with a default integer index is the list of its
      rows; the label of a row is its position. *)

From Stdlib Require Import QArith Qround ZArith List Bool Lia Lqa String.
From Stdlib Require Import Permutation Sorted.
Import ListNotations.
Open Scope Q_scope.

(** ** Python values and exceptions *)

Inductive PyExn : Type :=
| ZeroDivisionError
| ValueError
| NameError
| KeyError.

Inductive Py (A : Type) : Type :=
| Ok (a : A)
| Raise (e : PyExn).

Arguments Ok {A} a.
Arguments Raise {A} e.

Definition bind {A B : Type} (m : Py A) (k : A -> Py B) : Py B :=
  match m with
  | Ok a => k a
  | Raise e => Raise e
  end.

Notation "x <- m ;; k" := (bind m (fun x => k))
  (at level 61, m at next level, right associativity).

(** A raw float field: NaN or a finite value. *)
Inductive pyfloat : Type :=
| nan
| fin (q : Q).

(** [a > b] on floats. *)
Definition Qgt_bool (a b : Q) : bool := negb (Qle_bool a b).

(** Truth value of a float used as a condition: everything but zero. *)
Definition truthy (q : Q) : bool := negb (Qeq_bool q 0).

(** [a % b]: the remainder has the sign of the divisor. *)
Definition py_mod (a b : Q) : Q := a - b * inject_Z (Qfloor (a / b)).

(** [a // b] for a divisor that is known to be non-zero. *)
Definition py_floordiv (a b : Q) : Z := Qfloor (a / b).

(** [a / b]. *)
Definition py_truediv (a b : Q) : Py Q :=
  if Qeq_bool b 0 then Raise ZeroDivisionError else Ok (a / b).

(** [int(x)]: truncation towards zero. *)
Definition py_int (q : Q) : Z := Z.quot (Qnum q) (Zpos (Qden q)).

(** ** auxiliary_calculation.py *)

Inductive Scope : Type := potential | perspective.
Inductive Maximization : Type := max_power | max_retrieval_duration.
Inductive LoadChange : Type := load_increase | load_reduction | combination.

(** The row built by [add_row]: the float fields may be NaN. *)
Record RawRow : Type := mkRawRow {
  raw_TP : string;
  raw_name : string;
  raw_scope : Scope;
  raw_maximization : Maximization;
  raw_load_change : LoadChange;
  raw_power : pyfloat;
  raw_retrieval_duration : pyfloat;
  raw_activation_duration : pyfloat;
  raw_catch_up_time : pyfloat;
  raw_retrieval_frequency : Z
}.

(** The same row once its NaN values are gone. *)
Record Measure : Type := mkMeasure {
  TP : string;
  name : string;
  scope : Scope;
  maximization : Maximization;
  load_change : LoadChange;
  power : Q;
  retrieval_duration : Q;
  activation_duration : Q;
  catch_up_time : Q;
  retrieval_frequency : Z
}.

Definition fillna (x : pyfloat) : Q :=
  match x with
  | nan => 0
  | fin q => q
  end.

(** [fillna_dict]: every float that is NaN becomes 0; the integer and the
    string fields are left alone. *)
Definition fillna_dict (row : RawRow) : Measure :=
  {| TP := raw_TP row;
     name := raw_name row;
     scope := raw_scope row;
     maximization := raw_maximization row;
     load_change := raw_load_change row;
     power := fillna (raw_power row);
     retrieval_duration := fillna (raw_retrieval_duration row);
     activation_duration := fillna (raw_activation_duration row);
     catch_up_time := fillna (raw_catch_up_time row);
     retrieval_frequency := raw_retrieval_frequency row |}.

Definition quarter : Q := 0.25.
Definition hours_per_year : Q := 8760.

(** The three local durations after the first check of
    [check_and_adapt_dsm].  The sum, the remainders and the rounding are
    the exact ones.  Of the floats of the source, the remainder of a
    duration that is not negative is exact and so is its rounding up to the
    grid; the sum [duration] may be off in its last bit, which the test
    sees for a cycle within one bit of 0.25 h only. *)
Definition adapt_durations (rd ct ad : Q) : Q * Q * Q :=
  let duration := rd + ct + ad in
  if Qle_bool duration quarter then
    (quarter, 0, 0)
  else if truthy (py_mod rd quarter + py_mod ct quarter + py_mod ad quarter) then
    let rd := if truthy (py_mod rd quarter)
              then rd + (quarter - py_mod rd quarter) else rd in
    let ct := if truthy (py_mod ct quarter)
              then ct + (quarter - py_mod ct quarter) else ct in
    let ad := if truthy (py_mod ad quarter)
              then ad + (quarter - py_mod ad quarter) else ad in
    (rd, ct, ad)
  else
    (rd, ct, ad).

(** [check_and_adapt_dsm].  The row is updated at its keys
    'retrieval duration', 'catch-up time', 'power' and
    'retrieval frequency'; the statement [row['activation duration']] of the
    source assigns nothing, so that key keeps the value [fillna_dict] left
    there and the local [ad] only enters [duration].  A capped frequency
    is held by its value, a whole number; in the source it is the float
    that [8760 // duration] returns. *)
Definition check_and_adapt_dsm (raw : RawRow) : Py Measure :=
  let row := fillna_dict raw in
  let rd := retrieval_duration row in
  let ct := catch_up_time row in
  let ad := activation_duration row in
  let power0 := power row in
  let rf := retrieval_frequency row in
  let '(rd, ct, ad) := adapt_durations rd ct ad in
  power1 <- py_truediv (power0 * retrieval_duration row) rd ;;
  let duration := rd + ct + ad in
  let rf := if Qgt_bool (duration * inject_Z rf) hours_per_year
            then py_floordiv hours_per_year duration else rf in
  Ok {| TP := TP row;
        name := name row;
        scope := scope row;
        maximization := maximization row;
        load_change := load_change row;
        power := power1;
        retrieval_duration := rd;
        activation_duration := activation_duration row;
        catch_up_time := ct;
        retrieval_frequency := rf |}.

(** ** calculate_reduction_potential.py *)

(** A row of the quarter-hourly time series. *)
Record PriceEmf : Type := mkPriceEmf {
  price : Q;
  emf : Q
}.

(** The [column] argument of [block_reduction]; any other string makes the
    source raise [ValueError] before it computes anything. *)
Inductive Column : Type := col_emf | col_price.

Definition column_value (c : Column) (x : PriceEmf) : Q :=
  match c with
  | col_emf => emf x
  | col_price => price x
  end.

(** The rows of a frame paired with their index labels 0, 1, ... *)
Definition iterrows {A : Type} (df : list A) : list (Z * A) :=
  combine (map Z.of_nat (seq 0 (List.length df))) df.

(** [df.loc[first:last]]: the rows whose label lies between the two bounds,
    both included; bounds outside the index select nothing more. *)
Definition loc_slice {A : Type} (first last : Q) (df : list A) : list (Z * A) :=
  filter (fun ix => Qle_bool first (inject_Z (fst ix))
                    && Qle_bool (inject_Z (fst ix)) last)
         (iterrows df).

(** [df.loc[label]] for a single label. *)
Definition loc_at {A : Type} (df : list A) (label : Z) : Py A :=
  if (label <? 0)%Z then Raise KeyError
  else match nth_error df (Z.to_nat label) with
       | Some x => Ok x
       | None => Raise KeyError
       end.

(** Sum of a column; the sum of no value is 0. *)
Definition series_sum (l : list Q) : Q := fold_right Qplus 0 l.

(** [avg_price_emf[i]]. *)
Definition tuple_item (avg : Q * Q) (i : nat) : Q :=
  match i with
  | O => fst avg
  | _ => snd avg
  end.

Definition len {A : Type} (df : list A) : Q := inject_Z (Z.of_nat (List.length df)).

Definition calc_load_change (measure : Measure) : Q :=
  let load_change0 := power measure / 1000 / 4 in
  match load_change measure with
  | load_reduction => load_change0 * (-1)
  | _ => load_change0
  end.

(** [a + b] on floats: the exact sum, rounded to a float by
    [float_round]. *)
Definition float_add (float_round : Q -> Q) (a b : Q) : Q := float_round (a + b).

(** The rounding that leaves every sum as it is. *)
Definition no_rounding (q : Q) : Q := q.

Definition calc_rc_length (float_round : Q -> Q) (measure : Measure) : Q :=
  float_add float_round
    (float_add float_round (retrieval_duration measure) (catch_up_time measure))
    (activation_duration measure).

(** [block_reduction]; [t] is [row.name], the label of the quarter-hour at
    which the retrieval would start. *)
Definition block_reduction (t : Z) (column : Column) (df_price_emf : list PriceEmf)
    (load_change : Q) (avg_price_emf : Q * Q) (rd : Q) : Q :=
  let last_index := inject_Z t + (rd * 4) - 1 in
  let i := match column with col_emf => 1%nat | col_price => 0%nat end in
  if Qgt_bool last_index (len df_price_emf) then 0
  else
    (-1) * series_sum (map (fun ix => load_change * column_value column (snd ix))
                           (loc_slice (inject_Z t) last_index df_price_emf))
    + load_change * tuple_item avg_price_emf i * (rd * 4).

(** A row of the series once [blocks_quarter_hour] has added its two
    columns. *)
Record ReductionRow : Type := mkReductionRow {
  row_price : Q;
  row_emf : Q;
  emission_reduction : Q;
  price_reduction : Q
}.

(** [blocks_quarter_hour].  On a frame without rows [apply] returns a
    frame, not a column, and the assignment of it to the one column
    'emission_reduction' raises ValueError. *)
Definition blocks_quarter_hour (df_price_emf : list PriceEmf) (avg_price_emf : Q * Q)
    (load_change : Q) (rd : Q) : Py (list ReductionRow) :=
  match df_price_emf with
  | [] => Raise ValueError
  | _ :: _ =>
      Ok (map (fun ix =>
                 {| row_price := price (snd ix);
                    row_emf := emf (snd ix);
                    emission_reduction :=
                      block_reduction (fst ix) col_emf df_price_emf load_change
                                      avg_price_emf rd;
                    price_reduction :=
                      block_reduction (fst ix) col_price df_price_emf load_change
                                      avg_price_emf rd |})
              (iterrows df_price_emf))
  end.

(** One row of the frame of blocks, with its columns 'max. emission',
    'ass. cost', 'max. cost' and 'ass. emission'. *)
Record Block : Type := mkBlock {
  maxEmission : Q;
  assocCost : Q;
  maxCost : Q;
  assocEmission : Q
}.

(** [range(start, stop, step)]. *)
Definition py_range (start stop step : Z) : Py (list Z) :=
  if (step =? 0)%Z then Raise ValueError
  else
    let n := if (0 <? step)%Z
             then ((stop - start + step - 1) / step)%Z
             else ((start - stop - step - 1) / (- step))%Z in
    Ok (map (fun j => (start + Z.of_nat j * step)%Z) (seq 0 (Z.to_nat n))).

(** [idxmax] of one column: the label of the first row that holds the
    maximum. *)
Fixpoint idxmax_from (best : Z * Q) (l : list (Z * Q)) : Z :=
  match l with
  | [] => fst best
  | x :: l' =>
      if Qgt_bool (snd x) (snd best) then idxmax_from x l' else idxmax_from best l'
  end.

Definition idxmax (l : list (Z * Q)) : Py Z :=
  match l with
  | [] => Raise ValueError
  | x :: l' => Ok (idxmax_from x l')
  end.

(** A [for] loop that collects one value per iteration. *)
Fixpoint for_each {A B : Type} (f : A -> Py B) (l : list A) : Py (list B) :=
  match l with
  | [] => Ok []
  | x :: l' => y <- f x ;; ys <- for_each f l' ;; Ok (y :: ys)
  end.

Definition column_of {A : Type} (f : A -> Q) (rows : list (Z * A)) : list (Z * Q) :=
  map (fun ix => (fst ix, f (snd ix))) rows.

(** The body of the loop of [max_in_block]. *)
Definition block_at (df : list ReductionRow) (block index : Z) : Py Block :=
  let rows := loc_slice (inject_Z index) (inject_Z (index + block - 1)) df in
  max_indices0 <- idxmax (column_of emission_reduction rows) ;;
  max_indices1 <- idxmax (column_of price_reduction rows) ;;
  r0 <- loc_at df max_indices0 ;;
  r1 <- loc_at df max_indices1 ;;
  Ok {| maxEmission := emission_reduction r0;
        assocCost := price_reduction r0;
        maxCost := price_reduction r1;
        assocEmission := emission_reduction r1 |}.

Definition max_in_block (df : list ReductionRow) (length : Q) : Py (list Block) :=
  let block := py_int (length * 4) in
  starts <- py_range 0 (Z.of_nat (List.length df)) block ;;
  for_each (block_at df block) starts.

Definition calc_blocks (float_round : Q -> Q) (measure : Measure)
    (df_price_emf : list PriceEmf) (avg_price_emf : Q * Q) : Py (list Block) :=
  let load_change := calc_load_change measure in
  let length := calc_rc_length float_round measure in
  df_reductions <-
    blocks_quarter_hour df_price_emf avg_price_emf load_change
                        (retrieval_duration measure) ;;
  max_in_block df_reductions length.

(** What [calc_annual_potential] reads of a measure: the five identity
    fields and the retrieval frequency.  The combination case of
    [calc_measure_combo] is a dictionary with these six keys only. *)
Record MeasureKey : Type := mkMeasureKey {
  key_TP : string;
  key_name : string;
  key_scope : Scope;
  key_maximization : Maximization;
  key_load_change : LoadChange;
  key_retrieval_frequency : Z
}.

Definition measure_key (m : Measure) : MeasureKey :=
  {| key_TP := TP m;
     key_name := name m;
     key_scope := scope m;
     key_maximization := maximization m;
     key_load_change := load_change m;
     key_retrieval_frequency := retrieval_frequency m |}.

(** A result cell: the string 'NaN' of an objective that was not asked for,
    or a computed number. *)
Inductive Cell : Type :=
| NaN_string
| Num (q : Q).

Record AnnualResult : Type := mkAnnualResult {
  res_TP : string;
  res_name : string;
  res_scope : Scope;
  res_maximization : Maximization;
  res_load_change : LoadChange;
  res_max_emission : Cell;
  res_ass_cost : Cell;
  res_max_cost : Cell;
  res_ass_emission : Cell
}.

(** [DataFrame.head(n)]: the first [n] rows, or all but the last [-n] rows
    when [n] is negative. *)
Definition head {A : Type} (n : Z) (df : list A) : list A :=
  if (0 <=? n)%Z then firstn (Z.to_nat n) df
  else firstn (List.length df - Z.to_nat (- n)) df.

(** [frame.sum(axis=0)] of a frame of two columns. *)
Definition sum_columns (df : list (Q * Q)) : Q * Q :=
  (series_sum (map fst df), series_sum (map snd df)).

Section AnnualPotential.

(** The rounding of a float addition, for [calc_rc_length]. *)
Variable float_round : Q -> Q.

(** [sort_values(by=first column, ascending=False)] on a frame of two
    columns.  The source calls pandas with its default sorting kind, so
    all that is known of the result is that it holds the same rows, in
    descending order of the first column. *)
Variable sort_values : list (Q * Q) -> list (Q * Q).

Definition top_k (k : Z) (df : list (Q * Q)) : list (Q * Q) :=
  let sorted := sort_values df in
  let k_max := head k sorted in
  filter (fun r => Qgt_bool (fst r) 0) k_max.

Definition calc_annual_potential (measure : MeasureKey) (blocks : list Block)
    (max_co2 max_cost : bool) : AnnualResult :=
  let reduction_emission :=
    if max_co2 then
      let s := sum_columns
                 (top_k (key_retrieval_frequency measure)
                        (map (fun b => (maxEmission b, assocCost b)) blocks)) in
      (Num (fst s), Num (snd s))
    else (NaN_string, NaN_string) in
  let reduction_cost :=
    if max_cost then
      let s := sum_columns
                 (top_k (key_retrieval_frequency measure)
                        (map (fun b => (maxCost b, assocEmission b)) blocks)) in
      (Num (fst s), Num (snd s))
    else (NaN_string, NaN_string) in
  {| res_TP := key_TP measure;
     res_name := key_name measure;
     res_scope := key_scope measure;
     res_maximization := key_maximization measure;
     res_load_change := key_load_change measure;
     res_max_emission := fst reduction_emission;
     res_ass_cost := snd reduction_emission;
     res_max_cost := fst reduction_cost;
     res_ass_emission := snd reduction_cost |}.

Definition calc_measure_individual (measure : Measure) (df_price_emf : list PriceEmf)
    (avg_price_emf : Q * Q) (max_co2 max_cost : bool) : Py AnnualResult :=
  blocks <- calc_blocks float_round measure df_price_emf avg_price_emf ;;
  Ok (calc_annual_potential (measure_key measure) blocks max_co2 max_cost).

(** One iteration of the loop of [calc_measure_combo] over the blocks of
    the load reduction: the state is the frame [blocks_combo] and the
    variable [measure_combo], unbound until the first iteration. *)
Definition combo_step (measure_lr : Measure) (blocks_li : list Block)
    (state : list Block * option MeasureKey) (ix : Z * Block)
    : Py (list Block * option MeasureKey) :=
  let block_lr := snd ix in
  block_li <- loc_at blocks_li (fst ix) ;;
  let new_block :=
    if Qgt_bool (maxEmission block_lr) (maxEmission block_li)
       && Qgt_bool (maxCost block_lr) (maxCost block_li) then block_lr
    else if Qgt_bool (maxEmission block_li) (maxEmission block_lr)
            && Qgt_bool (maxCost block_li) (maxCost block_lr) then block_li
    else if Qgt_bool (maxEmission block_lr) (maxEmission block_li)
            && Qgt_bool (maxCost block_li) (maxCost block_lr) then
      {| maxEmission := maxEmission block_lr;
         assocCost := assocCost block_lr;
         maxCost := maxCost block_li;
         assocEmission := assocEmission block_li |}
    else
      {| maxEmission := maxEmission block_li;
         assocCost := assocCost block_li;
         maxCost := maxCost block_lr;
         assocEmission := assocEmission block_lr |} in
  let measure_combo :=
    {| key_TP := TP measure_lr;
       key_name := name measure_lr;
       key_scope := scope measure_lr;
       key_maximization := maximization measure_lr;
       key_load_change := combination;
       key_retrieval_frequency := retrieval_frequency measure_lr |} in
  Ok (fst state ++ [new_block], Some measure_combo).

Fixpoint combo_loop (measure_lr : Measure) (blocks_li : list Block)
    (state : list Block * option MeasureKey) (rows : list (Z * Block))
    : Py (list Block * option MeasureKey) :=
  match rows with
  | [] => Ok state
  | ix :: rows' =>
      state' <- combo_step measure_lr blocks_li state ix ;;
      combo_loop measure_lr blocks_li state' rows'
  end.

Definition calc_measure_combo (measure_lr measure_li : Measure)
    (df_price_emf : list PriceEmf) (avg_price_emf : Q * Q)
    (final_results : list AnnualResult) (max_co2 max_cost : bool)
    : Py (list AnnualResult) :=
  blocks_lr <- calc_blocks float_round measure_lr df_price_emf avg_price_emf ;;
  let length_lr := calc_rc_length float_round measure_lr in
  let final_results :=
    final_results
      ++ [calc_annual_potential (measure_key measure_lr) blocks_lr max_co2 max_cost] in
  blocks_li <- calc_blocks float_round measure_li df_price_emf avg_price_emf ;;
  let length_li := calc_rc_length float_round measure_li in
  let final_results :=
    final_results
      ++ [calc_annual_potential (measure_key measure_li) blocks_li max_co2 max_cost] in
  if Qeq_bool length_lr length_li then
    state <- combo_loop measure_lr blocks_li ([], None) (iterrows blocks_lr) ;;
    match snd state with
    | None => Raise NameError
    | Some measure_combo =>
        Ok (final_results
              ++ [calc_annual_potential measure_combo (fst state) max_co2 max_cost])
    end
  else Ok final_results.

End AnnualPotential.

(** ** read_and_write.py *)

(** A row of the table of annual averages. *)
Record AverageRow : Type := mkAverageRow {
  Jahr : Z;
  spez_CO2_Emissionen : Q;
  mittlerer_Strompreis : Q
}.

(** [df.query('Jahr==year')]. *)
Definition query_year (table : list AverageRow) (year : Z) : list AverageRow :=
  filter (fun r => (Jahr r =? year)%Z) table.

(** [read_avg_price_and_emf] on the table read from the file.  Each
    component of the returned tuple is the series of one column over the
    rows of the year; the file has one row per year, and a series of one
    value enters the arithmetic of [block_reduction] as that value. *)
Definition read_avg_price_and_emf (table : list AverageRow) (year : Z)
    : list Q * list Q :=
  let specific_emission := map spez_CO2_Emissionen (query_year table year) in
  let avg_price := map mittlerer_Strompreis (query_year table year) in
  (avg_price, specific_emission).

(** * Specification

    The notions the properties are stated with, and the data of the
    scenarios of the specification. *)

(** Rounding up to the quarter-hour grid, written with the ceiling. *)
Definition round_up_quarter (q : Q) : Q := inject_Z (Qceiling (q * 4)) * quarter.

(** The rounding of the source, one duration at a time. *)
Definition round_up_source (q : Q) : Q :=
  if truthy (py_mod q quarter) then q + (quarter - py_mod q quarter) else q.

(** The grid of the time series: the non-negative multiples of a quarter of
    an hour. *)
Definition on_grid (q : Q) : Prop :=
  exists n : Z, (0 <= n)%Z /\ q == inject_Z n * quarter.

(** The cycle of a row: the sum of its three durations. *)
Definition cycle (m : Measure) : Q :=
  retrieval_duration m + catch_up_time m + activation_duration m.

(** The invariant the specification wants of a normalized case. *)
Definition normalized (m : Measure) : Prop :=
  on_grid (retrieval_duration m) /\
  on_grid (catch_up_time m) /\
  on_grid (activation_duration m) /\
  quarter <= cycle m /\
  cycle m * inject_Z (retrieval_frequency m) <= hours_per_year.

(** The raw row of a load increase with the given power, retrieval
    duration, activation duration, catch-up time and retrieval frequency. *)
Definition raw_case (p rd ad ct : Q) (rf : Z) : RawRow :=
  mkRawRow "TP1" "measure" potential max_power load_increase
           (fin p) (fin rd) (fin ad) (fin ct) rf.

(** The rows of a frame with labels that start at [k]. *)
Definition iterrows_from {A : Type} (k : nat) (df : list A) : list (Z * A) :=
  combine (map Z.of_nat (seq k (List.length df))) df.

(** The test of [loc_slice] on a label. *)
Definition in_slice (first last : Q) (label : Z) : bool :=
  Qle_bool first (inject_Z label) && Qle_bool (inject_Z label) last.

(** A slice whose bounds enclose the labels [a], ..., [a + m - 1] and no
    other integer. *)
Definition encloses (first last : Q) (a m : nat) : Prop :=
  inject_Z (Z.of_nat a) - 1 < first /\ first <= inject_Z (Z.of_nat a) /\
  inject_Z (Z.of_nat a + Z.of_nat m) - 1 <= last /\
  last < inject_Z (Z.of_nat a + Z.of_nat m).

(** The baseline of an objective in the pair of averages. *)
Definition baseline (column : Column) (avg_price_emf : Q * Q) : Q :=
  match column with
  | col_price => fst avg_price_emf
  | col_emf => snd avg_price_emf
  end.

(** The reduction of the specification for a window of [w] quarter-hours
    that starts at [t]. *)
Definition window_reduction (column : Column) (df : list PriceEmf) (d : PriceEmf)
    (load_change_MWh avg : Q) (t w : nat) : Q :=
  - series_sum (map (fun i => load_change_MWh * column_value column (nth i df d))
                    (seq t w))
  + load_change_MWh * avg * inject_Z (Z.of_nat w).

(** The series of the scenario of the specification, with an emission
    factor of twice the price. *)
Definition scenario_series : list PriceEmf :=
  map (fun p => mkPriceEmf p (p * 2)) [10; 10; 10; 10; 50; 50; 50; 50].

(** The measure of the scenario: a load increase of 4 kW for a quarter of
    an hour, twice a year. *)
Definition scenario_measure : Measure :=
  mkMeasure "TP1" "measure" potential max_power load_increase 4 0.25 0 0 2.

(** The first position of a segment that holds the maximum of the column
    [f]. *)
Definition first_max {A : Type} (f : A -> Q) (seg : list A) (i : nat) (r : A) : Prop :=
  nth_error seg i = Some r /\
  (forall r', In r' seg -> f r' <= f r) /\
  (forall i' r', (i' < i)%nat -> nth_error seg i' = Some r' -> f r' < f r).

(** Segment [j] of a frame cut into pieces of [L] rows. *)
Definition segment {A : Type} (df : list A) (L j : nat) : list A :=
  firstn L (skipn (j * L) df).

(** One block: its maxima are the first maxima of its segment, and each
    associated value is read in the row of the maximum. *)
Definition block_of_segment (seg : list ReductionRow) (b : Block) : Prop :=
  (exists i r, first_max emission_reduction seg i r /\
               maxEmission b = emission_reduction r /\
               assocCost b = price_reduction r) /\
  (exists i r, first_max price_reduction seg i r /\
               maxCost b = price_reduction r /\
               assocEmission b = emission_reduction r).

(** Descending order of the first column. *)
Definition desc (a b : Q * Q) : Prop := fst b <= fst a.

(** The two columns of the emission objective. *)
Definition emission_frame (blocks : list Block) : list (Q * Q) :=
  map (fun b => (maxEmission b, assocCost b)) blocks.

(** The two columns of the cost objective. *)
Definition cost_frame (blocks : list Block) : list (Q * Q) :=
  map (fun b => (maxCost b, assocEmission b)) blocks.

(** [selected] are top-[k] rows of [df]: at most [k] rows of [df], in
    descending order, all above 0, none below a row that was left out, and
    fewer than [k] only when no row above 0 was left out. *)
Definition is_top_k (k : Z) (df selected : list (Q * Q)) : Prop :=
  exists rest,
    Permutation (selected ++ rest) df /\
    StronglySorted desc selected /\
    (Z.of_nat (List.length selected) <= k)%Z /\
    Forall (fun s => 0 < fst s) selected /\
    (forall s x, In s selected -> In x rest -> fst x <= fst s) /\
    ((Z.of_nat (List.length selected) < k)%Z -> Forall (fun x => fst x <= 0) rest).

(** A sorting function that returns the rows in descending order of the
    first column: insertion into a descending list, before the rows of
    equal key. *)
Fixpoint insert_desc (x : Q * Q) (l : list (Q * Q)) : list (Q * Q) :=
  match l with
  | [] => [x]
  | y :: l' => if Qle_bool (fst y) (fst x) then x :: y :: l' else y :: insert_desc x l'
  end.

Definition insertion_sort_desc (df : list (Q * Q)) : list (Q * Q) :=
  fold_right insert_desc [] df.

(** Another one: the same insertion on the frame read backwards, which
    leaves rows of equal key in the opposite order. *)
Definition reversed_sort_desc (df : list (Q * Q)) : list (Q * Q) :=
  insertion_sort_desc (rev df).

(** What [calc_annual_potential] reads of the measure of the scenario. *)
Definition scenario_key : MeasureKey := measure_key scenario_measure.

(** The blocks of the scenario: eight blocks of one quarter-hour, with
    price reductions of 0.02 four times and of -0.02 four times. *)
Definition scenario_blocks : list Block :=
  map (fun c => mkBlock (c * 2) c c (c * 2))
      [0.02; 0.02; 0.02; 0.02; -0.02; -0.02; -0.02; -0.02].

(** The combination case that [calc_measure_combo] writes down in its
    loop. *)
Definition combination_key (measure_lr : Measure) : MeasureKey :=
  {| key_TP := TP measure_lr;
     key_name := name measure_lr;
     key_scope := scope measure_lr;
     key_maximization := maximization measure_lr;
     key_load_change := combination;
     key_retrieval_frequency := retrieval_frequency measure_lr |}.

(** The load reduction that pairs with the measure of the scenario. *)
Definition scenario_reduction : Measure :=
  mkMeasure "TP1" "measure" potential max_power load_reduction 4 0.25 0 0 2.

(** * Further notions

    What the properties beyond the specification are stated with. *)

(** A row that holds no NaN, read back as a raw row. *)
Definition raw_of_measure (m : Measure) : RawRow :=
  {| raw_TP := TP m;
     raw_name := name m;
     raw_scope := scope m;
     raw_maximization := maximization m;
     raw_load_change := load_change m;
     raw_power := fin (power m);
     raw_retrieval_duration := fin (retrieval_duration m);
     raw_activation_duration := fin (activation_duration m);
     raw_catch_up_time := fin (catch_up_time m);
     raw_retrieval_frequency := retrieval_frequency m |}.

(** The duration of one cycle that [check_and_adapt_dsm] caps the
    retrieval frequency with: a quarter of an hour for a short cycle, the
    sum of the three durations rounded up to the grid otherwise. *)
Definition adapted_cycle (rd ct ad : Q) : Q :=
  if Qle_bool (rd + ct + ad) quarter then quarter
  else round_up_quarter rd + round_up_quarter ct + round_up_quarter ad.

(** Two rows that hold the same case: equal identity and frequency, equal
    numbers in the float fields. *)
Definition same_case (a b : Measure) : Prop :=
  TP a = TP b /\ name a = name b /\ scope a = scope b /\
  maximization a = maximization b /\ load_change a = load_change b /\
  power a == power b /\
  retrieval_duration a == retrieval_duration b /\
  activation_duration a == activation_duration b /\
  catch_up_time a == catch_up_time b /\
  retrieval_frequency a = retrieval_frequency b.

(** The case of a key with another retrieval frequency. *)
Definition with_frequency (measure : MeasureKey) (k : Z) : MeasureKey :=
  {| key_TP := key_TP measure;
     key_name := key_name measure;
     key_scope := key_scope measure;
     key_maximization := key_maximization measure;
     key_load_change := key_load_change measure;
     key_retrieval_frequency := k |}.

(** The test of [top_k] on a row: the sorted column is above 0. *)
Definition above_zero (r : Q * Q) : bool := Qgt_bool (fst r) 0.

(** [chosen] are at most [k] rows taken out of the frame [df]. *)
Definition at_most_k_of (k : Z) (df chosen : list (Q * Q)) : Prop :=
  (Z.of_nat (List.length chosen) <= k)%Z /\
  exists rest, Permutation (chosen ++ rest) df.

(** The block [b] has its 'max. emission' and its 'ass. cost' from the
    block [source]. *)
Definition takes_emission_of (b source : Block) : Prop :=
  maxEmission b = maxEmission source /\ assocCost b = assocCost source.

(** The block [b] has its 'max. cost' and its 'ass. emission' from the
    block [source]. *)
Definition takes_cost_of (b source : Block) : Prop :=
  maxCost b = maxCost source /\ assocEmission b = assocEmission source.

(** The four branches of the loop of [calc_measure_combo] for the blocks
    [block_lr] and [block_li] of one index. *)
Definition combined (block_lr block_li b : Block) : Prop :=
  (maxEmission block_li < maxEmission block_lr /\
   maxCost block_li < maxCost block_lr /\ b = block_lr) \/
  (maxEmission block_lr < maxEmission block_li /\
   maxCost block_lr < maxCost block_li /\ b = block_li) \/
  (maxEmission block_li < maxEmission block_lr /\
   maxCost block_lr < maxCost block_li /\
   takes_emission_of b block_lr /\ takes_cost_of b block_li) \/
  ((maxEmission block_lr <= maxEmission block_li \/
    maxCost block_lr == maxCost block_li) /\
   (maxEmission block_li <= maxEmission block_lr \/
    maxCost block_li <= maxCost block_lr) /\
   takes_emission_of b block_li /\ takes_cost_of b block_lr).

(** Rounding to the nearest integer, a tie going to the even one. *)
Definition round_half_even (q : Q) : Z :=
  let f := Qfloor q in
  match Qcompare (q - inject_Z f) (1 # 2) with
  | Lt => f
  | Eq => if Z.even f then f else (f + 1)%Z
  | Gt => (f + 1)%Z
  end.

(** The rounding of a float addition whose result lies between 0.5 and 1,
    where two neighbouring floats are 2^-53 apart. *)
Definition round_below_one (q : Q) : Q :=
  inject_Z (round_half_even (q * inject_Z (2 ^ 53))) / inject_Z (2 ^ 53).

(** Two cases with a nominal cycle of 1807 s: a retrieval of 0.25 h
    activated in 907 s, and a retrieval of 0.5 h activated in 7 s.  The
    activation durations are the floats of 907 / 3600 and of 7 / 3600. *)
Definition reduction_907s : Measure :=
  mkMeasure "TP1" "measure" potential max_power load_reduction 10 0.25
            (4538627624472267 # 18014398509481984) 0 3.

Definition increase_7s : Measure :=
  mkMeasure "TP1" "measure" potential max_power load_increase 10 0.5
            (4483583629026627 # 2305843009213693952) 0 3.

(** * The orchestrator of calculate_reduction_potential.py *)

Definition scope_eqb (a b : Scope) : bool :=
  match a, b with
  | potential, potential | perspective, perspective => true
  | _, _ => false
  end.

Definition maximization_eqb (a b : Maximization) : bool :=
  match a, b with
  | max_power, max_power | max_retrieval_duration, max_retrieval_duration => true
  | _, _ => false
  end.

Definition load_change_eqb (a b : LoadChange) : bool :=
  match a, b with
  | load_increase, load_increase | load_reduction, load_reduction
  | combination, combination => true
  | _, _ => false
  end.

(** Two rows agree on the columns 'TP', 'name', 'scope', 'maximization' and
    'retrieval frequency'. *)
Definition same_key (a b : Measure) : bool :=
  String.eqb (TP a) (TP b) && String.eqb (name a) (name b)
  && scope_eqb (scope a) (scope b)
  && maximization_eqb (maximization a) (maximization b)
  && Z.eqb (retrieval_frequency a) (retrieval_frequency b).

(** [df.duplicated(subset, keep=False)] at one row: its key is held by
    more than one row of the frame. *)
Definition duplicated (df : list Measure) (m : Measure) : bool :=
  (1 <? List.length (filter (same_key m) df))%nat.

(** [df.drop_duplicates(subset, keep=False)]. *)
Definition drop_duplicates (df : list Measure) : list Measure :=
  filter (fun m => negb (duplicated df m)) df.

Section Orchestrator.

Variable float_round : Q -> Q.
Variable sort_values : list (Q * Q) -> list (Q * Q).

(** The call of [calc_measure_combo] on the squeezed frame of the load
    increases that match a load reduction.  A frame of one row squeezes to
    that row.  Any other frame stays a frame: [calc_measure_combo] then
    computes the blocks of the load reduction and records its row, and the
    test [if measure['load change'] == 'load reduction'] of
    [calc_load_change] on the frame raises [ValueError], the truth value
    of a series being ambiguous. *)
Definition calc_measure_combo_squeezed (measure_lr : Measure) (matches : list Measure)
    (df_price_emf : list PriceEmf) (avg_price_emf : Q * Q)
    (final_results : list AnnualResult) (max_co2 max_cost : bool)
    : Py (list AnnualResult) :=
  match matches with
  | [measure_li] =>
      calc_measure_combo float_round sort_values measure_lr measure_li df_price_emf
                         avg_price_emf final_results max_co2 max_cost
  | _ =>
      _ <- calc_blocks float_round measure_lr df_price_emf avg_price_emf ;;
      Raise ValueError
  end.

(** The loop over the load reductions of the duplicated rows. *)
Fixpoint combo_rows (df_dsm_li : list Measure) (df_price_emf : list PriceEmf)
    (avg_price_emf : Q * Q) (max_co2 max_cost : bool)
    (df_dsm_lr : list Measure) (final_results : list AnnualResult)
    : Py (list AnnualResult) :=
  match df_dsm_lr with
  | [] => Ok final_results
  | measure_lr :: rest =>
      let measure_li := filter (same_key measure_lr) df_dsm_li in
      final_results' <-
        calc_measure_combo_squeezed measure_lr measure_li df_price_emf avg_price_emf
                                    final_results max_co2 max_cost ;;
      combo_rows df_dsm_li df_price_emf avg_price_emf max_co2 max_cost rest final_results'
  end.

(** The loop over the remaining rows. *)
Fixpoint individual_rows (df_price_emf : list PriceEmf) (avg_price_emf : Q * Q)
    (max_co2 max_cost : bool) (df_dsm : list Measure) (final_results : list AnnualResult)
    : Py (list AnnualResult) :=
  match df_dsm with
  | [] => Ok final_results
  | measure :: rest =>
      row <- calc_measure_individual float_round sort_values measure df_price_emf
                                     avg_price_emf max_co2 max_cost ;;
      individual_rows df_price_emf avg_price_emf max_co2 max_cost rest
                      (final_results ++ [row])
  end.

Definition calc_reduction_potential (df_dsm : list Measure) (df_price_emf : list PriceEmf)
    (avg_price_emf : Q * Q) (max_co2 max_cost combo : bool) : Py (list AnnualResult) :=
  let final_results := [] in
  if combo then
    let df_dsm_combo := filter (duplicated df_dsm) df_dsm in
    let df_dsm_lr :=
      filter (fun m => load_change_eqb (load_change m) load_reduction) df_dsm_combo in
    let df_dsm_li :=
      filter (fun m => load_change_eqb (load_change m) load_increase) df_dsm_combo in
    final_results <-
      combo_rows df_dsm_li df_price_emf avg_price_emf max_co2 max_cost
                 df_dsm_lr final_results ;;
    let df_dsm := drop_duplicates df_dsm in
    individual_rows df_price_emf avg_price_emf max_co2 max_cost df_dsm final_results
  else
    individual_rows df_price_emf avg_price_emf max_co2 max_cost df_dsm final_results.

End Orchestrator.

(** The row of results carries the identity of the measure. *)
Definition result_of (m : Measure) (r : AnnualResult) : Prop :=
  res_TP r = TP m /\ res_name r = name m /\ res_scope r = scope m /\
  res_maximization r = maximization m /\ res_load_change r = load_change m.

(** * The input layer: add_row and read_and_adapt_dsm *)

(** A row of the table of measures as the user writes it: the text columns
    and the number columns, by name. *)
Record CsvRow : Type := mkCsvRow {
  csv_text : list (string * string);
  csv_numbers : list (string * pyfloat)
}.

(** [row[key]] on the columns of one type. *)
Fixpoint getitem {A : Type} (cells : list (string * A)) (key : string) : Py A :=
  match cells with
  | [] => Raise KeyError
  | (k, v) :: rest => if String.eqb k key then Ok v else getitem rest key
  end.

Definition isnan (x : pyfloat) : bool :=
  match x with
  | nan => true
  | fin _ => false
  end.

(** [x / d] for a finite divisor other than zero. *)
Definition float_div (x : pyfloat) (d : Q) : pyfloat :=
  match x with
  | nan => nan
  | fin q => fin (q / d)
  end.

(** [int(x)]: NaN cannot be converted. *)
Definition int_of_float (x : pyfloat) : Py Z :=
  match x with
  | nan => Raise ValueError
  | fin q => Ok (py_int q)
  end.

Definition valid_scope : list string := ["potential"; "perspective"]%string.
Definition valid_maximization : list string := ["power"; "retrieval duration"]%string.
Definition valid_load_change : list string := ["load increase"; "load reduction"]%string.

(** [s in valid]. *)
Definition member (s : string) (valid : list string) : bool :=
  existsb (String.eqb s) valid.

(** The prefix of the columns of one case. *)
Definition case_prefix (scope maximization load_change : string) : string :=
  let scope_row :=
    (if String.eqb scope "potential" then "Potential" else "Perspektive")%string in
  let max_row :=
    (if String.eqb maximization "power" then "maxLeistung" else "maxAbrufdauer")%string in
  let load_change_row :=
    (if String.eqb load_change "load increase" then "LE" else "LV")%string in
  (scope_row ++ "_" ++ max_row ++ "_" ++ load_change_row ++ "_")%string.

(** The three strings of a case that passed the test of [add_row], as the
    values of the row. *)
Definition scope_of (scope : string) : Scope :=
  if String.eqb scope "potential" then potential else perspective.

Definition maximization_of (maximization : string) : Maximization :=
  if String.eqb maximization "power" then max_power else max_retrieval_duration.

Definition load_change_of (load_change : string) : LoadChange :=
  if String.eqb load_change "load increase" then load_increase else load_reduction.

(** [add_row]: the entries of the new row are evaluated in the order of
    the dictionary of the source. *)
Definition add_row (row : CsvRow) (df : list Measure)
    (scope maximization load_change : string) : Py (list Measure) :=
  if negb (member scope valid_scope) || negb (member maximization valid_maximization)
     || negb (member load_change valid_load_change)
  then Raise ValueError
  else
    let prefix := case_prefix scope maximization load_change in
    tp <- getitem (csv_text row) "TP" ;;
    nm <- getitem (csv_text row) "Name" ;;
    p <- getitem (csv_numbers row) (prefix ++ "Leistung [kW]")%string ;;
    rd <- getitem (csv_numbers row) (prefix ++ "Abrufdauer [h]")%string ;;
    ad <- getitem (csv_numbers row) (prefix ++ "Aktivierungsdauer [s]")%string ;;
    ct <- getitem (csv_numbers row) (prefix ++ "Nachholzeit [h]")%string ;;
    rf_cell <- getitem (csv_numbers row) (prefix ++ "Abrufhäufigkeit [1/a]")%string ;;
    rf <- int_of_float rf_cell ;;
    let new_row :=
      {| raw_TP := tp;
         raw_name := nm;
         raw_scope := scope_of scope;
         raw_maximization := maximization_of maximization;
         raw_load_change := load_change_of load_change;
         raw_power := p;
         raw_retrieval_duration := rd;
         raw_activation_duration := float_div ad 3600;
         raw_catch_up_time := ct;
         raw_retrieval_frequency := rf |} in
    checked_row <- check_and_adapt_dsm new_row ;;
    Ok (df ++ [checked_row]).

(** The eight tests of [read_and_adapt_dsm], in their order: the column
    whose value must not be NaN, and the three strings passed to
    [add_row]. *)
Definition eight_cases : list (string * (string * string * string)) :=
  [ ("Potential_maxLeistung_LE_Leistung [kW]",
     ("potential", "power", "load increase"));
    ("Potential_maxLeistung_LV_Leistung [kW]",
     ("potential", "power", "load reduction"));
    ("Potential_maxAbrufdauer_LE_Leistung [kW]",
     ("potential", "retrieval duration", "load increase"));
    ("Potential_maxAbrufdauer_LV_Leistung [kW]",
     ("potential", "retrieval duration", "load reduction"));
    ("Perspektive_maxLeistung_LE_Leistung [kW]",
     ("perspective", "power", "load increase"));
    ("Perspektive_maxLeistung_LV_Leistung [kW]",
     ("perspective", "power", "load reduction"));
    ("Perspektive_maxAbrufdauer_LE_Leistung [kW]",
     ("perspective", "retrieval duration", "load increase"));
    ("Perspektive_maxAbrufdauer_LV_Leistung [kW]",
     ("perspective", "retrieval duration", "load reduction")) ]%string.

(** The tests of one row of the table. *)
Fixpoint add_cases (row : CsvRow) (cases : list (string * (string * string * string)))
    (df_new : list Measure) : Py (list Measure) :=
  match cases with
  | [] => Ok df_new
  | (column, (scope, maximization, load_change)) :: rest =>
      cell <- getitem (csv_numbers row) column ;;
      df_new' <- (if negb (isnan cell)
                  then add_row row df_new scope maximization load_change
                  else Ok df_new) ;;
      add_cases row rest df_new'
  end.

(** The loop over the rows of the table. *)
Fixpoint read_rows (df : list CsvRow) (df_new : list Measure) : Py (list Measure) :=
  match df with
  | [] => Ok df_new
  | row :: rest =>
      df_new' <- add_cases row eight_cases df_new ;;
      read_rows rest df_new'
  end.

(** [read_and_adapt_dsm] on the frame that [read_csv] returns. *)
Definition read_and_adapt_dsm (df : list CsvRow) : Py (list Measure) :=
  read_rows df [].

(** The number of the eight cases of a table row whose power is not
    NaN. *)
Definition defined_cases (cases : list (string * (string * string * string)))
    (row : CsvRow) : nat :=
  List.length
    (filter (fun c => match getitem (csv_numbers row) (fst c) with
                      | Ok cell => negb (isnan cell)
                      | Raise _ => false
                      end)
            cases).

(** A row that [check_and_adapt_dsm] returned for a load increase or a load
    reduction. *)
Definition checked_case (r : Measure) : Prop :=
  (load_change r = load_increase \/ load_change r = load_reduction) /\
  exists raw, check_and_adapt_dsm raw = Ok r.

(** The row [r] is of the case given by the three strings. *)
Definition case_of (r : Measure) (s m l : string) : Prop :=
  scope r = scope_of s /\
  maximization r = maximization_of m /\
  load_change r = load_change_of l.

(** A table row that defines one case: a load reduction of the potential
    at maximal power, with an activation of 180 s and no catch-up time. *)
Definition table_row : CsvRow :=
  mkCsvRow
    [("TP", "TP1"); ("Name", "measure")]%string
    [("Potential_maxLeistung_LE_Leistung [kW]", nan);
     ("Potential_maxLeistung_LV_Leistung [kW]", fin 10);
     ("Potential_maxLeistung_LV_Abrufdauer [h]", fin 1);
     ("Potential_maxLeistung_LV_Aktivierungsdauer [s]", fin 180);
     ("Potential_maxLeistung_LV_Nachholzeit [h]", nan);
     ("Potential_maxLeistung_LV_Abrufhäufigkeit [1/a]", fin 12);
     ("Potential_maxAbrufdauer_LE_Leistung [kW]", nan);
     ("Potential_maxAbrufdauer_LV_Leistung [kW]", nan);
     ("Perspektive_maxLeistung_LE_Leistung [kW]", nan);
     ("Perspektive_maxLeistung_LV_Leistung [kW]", nan);
     ("Perspektive_maxAbrufdauer_LE_Leistung [kW]", nan);
     ("Perspektive_maxAbrufdauer_LV_Leistung [kW]", nan)]%string.

(** * Properties *)

(** ** Comparisons and rounding *)

Lemma Qgt_bool_true (a b : Q) : Qgt_bool a b = true <-> b < a.
Proof.
  unfold Qgt_bool. rewrite negb_true_iff. split; intro H.
  - apply Qnot_le_lt. intro Hle. apply Qle_bool_iff in Hle. congruence.
  - destruct (Qle_bool a b) eqn:E; [|reflexivity].
    apply Qle_bool_iff in E. exfalso. apply (Qlt_not_le _ _ H E).
Qed.

Lemma Qgt_bool_false (a b : Q) : Qgt_bool a b = false <-> a <= b.
Proof.
  unfold Qgt_bool. rewrite negb_false_iff. apply Qle_bool_iff.
Qed.

Lemma truthy_true (q : Q) : truthy q = true <-> ~ q == 0.
Proof.
  unfold truthy. rewrite negb_true_iff. split; intro H.
  - intro E. apply Qeq_bool_iff in E. congruence.
  - destruct (Qeq_bool q 0) eqn:E; [|reflexivity].
    apply Qeq_bool_iff in E. contradiction.
Qed.

Lemma truthy_false (q : Q) : truthy q = false <-> q == 0.
Proof.
  unfold truthy. rewrite negb_false_iff. apply Qeq_bool_iff.
Qed.

(** The floor of a rational is the one integer just below it. *)
Lemma Qfloor_unique (x : Q) (n : Z) :
  inject_Z n <= x -> x < inject_Z (n + 1) -> Qfloor x = n.
Proof.
  intros Hlo Hhi.
  pose proof (Qfloor_le x) as H1. pose proof (Qlt_floor x) as H2.
  assert (A : (n < Qfloor x + 1)%Z).
  { rewrite Zlt_Qlt. eapply Qle_lt_trans; eassumption. }
  assert (B : (Qfloor x < n + 1)%Z).
  { rewrite Zlt_Qlt. eapply Qle_lt_trans; eassumption. }
  lia.
Qed.

Lemma py_mod_quarter (q : Q) :
  py_mod q quarter == q - quarter * inject_Z (Qfloor (q * 4)).
Proof.
  unfold py_mod.
  assert (E : q / quarter == q * 4) by (unfold quarter; field).
  rewrite (Qfloor_comp _ _ E). reflexivity.
Qed.

Lemma py_mod_quarter_range (q : Q) :
  0 <= py_mod q quarter /\ py_mod q quarter < quarter.
Proof.
  rewrite py_mod_quarter.
  pose proof (Qfloor_le (q * 4)) as H1. pose proof (Qlt_floor (q * 4)) as H2.
  rewrite inject_Z_plus in H2. change (inject_Z 1) with 1 in H2.
  unfold quarter. split; lra.
Qed.

Lemma Qceiling_unique (x : Q) (n : Z) :
  inject_Z (n - 1) < x -> x <= inject_Z n -> Qceiling x = n.
Proof.
  intros Hlo Hhi.
  pose proof (Qle_ceiling x) as H1. pose proof (Qceiling_lt x) as H2.
  assert (A : (n - 1 < Qceiling x)%Z).
  { rewrite Zlt_Qlt. eapply Qlt_le_trans; eassumption. }
  assert (B : (Qceiling x - 1 < n)%Z).
  { rewrite Zlt_Qlt. eapply Qlt_le_trans; eassumption. }
  lia.
Qed.

Lemma round_up_source_spec (q : Q) : round_up_source q == round_up_quarter q.
Proof.
  unfold round_up_source, round_up_quarter.
  pose proof (Qfloor_le (q * 4)) as H1. pose proof (Qlt_floor (q * 4)) as H2.
  rewrite inject_Z_plus in H2. change (inject_Z 1) with 1 in H2.
  destruct (truthy (py_mod q quarter)) eqn:E.
  - apply truthy_true in E. rewrite py_mod_quarter in *.
    assert (C : Qceiling (q * 4) = (Qfloor (q * 4) + 1)%Z).
    { apply Qceiling_unique.
      - replace (Qfloor (q * 4) + 1 - 1)%Z with (Qfloor (q * 4)) by lia.
        destruct (Qlt_le_dec (inject_Z (Qfloor (q * 4))) (q * 4)) as [L|L];
          [exact L|].
        exfalso. apply E. unfold quarter. lra.
      - rewrite inject_Z_plus. change (inject_Z 1) with 1. lra. }
    rewrite C, inject_Z_plus. change (inject_Z 1) with 1. unfold quarter. lra.
  - apply truthy_false in E. rewrite py_mod_quarter in E.
    assert (C : Qceiling (q * 4) = Qfloor (q * 4)).
    { apply Qceiling_unique.
      - unfold Z.sub. rewrite inject_Z_plus, inject_Z_opp.
        change (inject_Z 1) with 1. lra.
      - unfold quarter in E. lra. }
    rewrite C. unfold quarter in *. lra.
Qed.

(** ** MeasureNormalizer *)

Lemma py_mod_zero_fixed (q : Q) :
  truthy (py_mod q quarter) = false -> q == round_up_quarter q.
Proof.
  intro E. rewrite <- round_up_source_spec. unfold round_up_source.
  rewrite E. reflexivity.
Qed.

(** Past a quarter of an hour, the local durations are the inputs rounded up
    to the grid. *)
Lemma adapt_durations_long (rd ct ad : Q) :
  quarter < rd + ct + ad ->
  fst (fst (adapt_durations rd ct ad)) == round_up_quarter rd /\
  snd (fst (adapt_durations rd ct ad)) == round_up_quarter ct /\
  snd (adapt_durations rd ct ad) == round_up_quarter ad.
Proof.
  intro Hlong. unfold adapt_durations.
  destruct (Qle_bool (rd + ct + ad) quarter) eqn:E1.
  { apply Qle_bool_iff in E1. exfalso. apply (Qlt_not_le _ _ Hlong E1). }
  destruct (truthy (py_mod rd quarter + py_mod ct quarter + py_mod ad quarter)) eqn:E2;
    cbn [fst snd].
  - repeat split; apply round_up_source_spec.
  - apply truthy_false in E2.
    destruct (py_mod_quarter_range rd) as [R1 _].
    destruct (py_mod_quarter_range ct) as [C1 _].
    destruct (py_mod_quarter_range ad) as [A1 _].
    repeat split; apply py_mod_zero_fixed; apply truthy_false; lra.
Qed.

(** A cycle of at most a quarter of an hour becomes one quarter-hour of
    retrieval. *)
Lemma adapt_durations_short (rd ct ad : Q) :
  rd + ct + ad <= quarter -> adapt_durations rd ct ad = (quarter, 0, 0).
Proof.
  intro H. unfold adapt_durations. apply Qle_bool_iff in H. rewrite H. reflexivity.
Qed.

(** What [check_and_adapt_dsm] returns for a short cycle: the activation
    duration of the input stays in the row. *)
Lemma check_and_adapt_dsm_short (raw : RawRow) :
  let row := fillna_dict raw in
  retrieval_duration row + catch_up_time row + activation_duration row <= quarter ->
  exists r,
    check_and_adapt_dsm raw = Ok r /\
    retrieval_duration r = quarter /\
    catch_up_time r = 0 /\
    activation_duration r = activation_duration row /\
    power r == power row * (retrieval_duration row / quarter).
Proof.
  intros row H. unfold check_and_adapt_dsm. fold row.
  rewrite (adapt_durations_short _ _ _ H). cbn.
  eexists. split; [reflexivity|]. cbn. repeat split.
  unfold quarter. field.
Qed.

Lemma twentieth_off_grid : ~ on_grid 0.05.
Proof.
  intros [n [Hn E]]. unfold Qeq, quarter in E. cbn in E. lia.
Qed.

Lemma on_grid_comp (q q' : Q) : q == q' -> on_grid q -> on_grid q'.
Proof.
  intros E (n & Hn & H). exists n. split; [exact Hn|]. rewrite <- E. exact H.
Qed.

Lemma round_up_quarter_ge (q : Q) : q <= round_up_quarter q.
Proof.
  unfold round_up_quarter, quarter. pose proof (Qle_ceiling (q * 4)). lra.
Qed.

Lemma round_up_quarter_on_grid (q : Q) : 0 <= q -> on_grid (round_up_quarter q).
Proof.
  intro H. exists (Qceiling (q * 4)). split; [|reflexivity].
  rewrite Zle_Qle. pose proof (Qle_ceiling (q * 4)). change (inject_Z 0) with 0. lra.
Qed.

(** The cap of the retrieval frequency fits the cycles into the year. *)
Lemma frequency_cap_fits (duration : Q) (rf : Z) :
  0 < duration ->
  duration * inject_Z (if Qgt_bool (duration * inject_Z rf) hours_per_year
                       then py_floordiv hours_per_year duration else rf)
  <= hours_per_year.
Proof.
  intro Hpos. destruct (Qgt_bool (duration * inject_Z rf) hours_per_year) eqn:E.
  - unfold py_floordiv.
    pose proof (Qfloor_le (hours_per_year / duration)) as Hfl.
    apply (Qmult_le_l _ _ duration Hpos) in Hfl.
    eapply Qle_trans; [exact Hfl|].
    assert (Hd : duration * (hours_per_year / duration) == hours_per_year)
      by (field; intro Hz; rewrite Hz in Hpos; discriminate Hpos).
    rewrite Hd. apply Qle_refl.
  - apply Qgt_bool_false in E. exact E.
Qed.

(** What does hold of the returned row for durations that are not
    negative: retrieval duration and catch-up time are on the grid, and the
    cycle made of them and of the adapted activation duration, which the
    row does not hold, lasts a quarter of an hour at least and fits into
    the year with the returned frequency. *)
Lemma check_and_adapt_dsm_grid (raw : RawRow) (r : Measure) :
  let row := fillna_dict raw in
  0 <= retrieval_duration row -> 0 <= catch_up_time row -> 0 <= activation_duration row ->
  check_and_adapt_dsm raw = Ok r ->
  on_grid (retrieval_duration r) /\
  on_grid (catch_up_time r) /\
  exists ad,
    on_grid ad /\
    quarter <= retrieval_duration r + catch_up_time r + ad /\
    (retrieval_duration r + catch_up_time r + ad) * inject_Z (retrieval_frequency r)
    <= hours_per_year.
Proof.
  intros row Hrd Hct Had. unfold check_and_adapt_dsm. fold row.
  assert (G : let '(rd', ct', ad') :=
                adapt_durations (retrieval_duration row) (catch_up_time row)
                                (activation_duration row) in
              on_grid rd' /\ on_grid ct' /\ on_grid ad' /\ quarter <= rd' + ct' + ad').
  { destruct (Qlt_le_dec quarter (retrieval_duration row + catch_up_time row
                                  + activation_duration row)) as [Hlong | Hshort].
    - destruct (adapt_durations_long _ _ _ Hlong) as (E1 & E2 & E3).
      destruct (adapt_durations _ _ _) as [[rd' ct'] ad']. cbn [fst snd] in *.
      pose proof (round_up_quarter_ge (retrieval_duration row)).
      pose proof (round_up_quarter_ge (catch_up_time row)).
      pose proof (round_up_quarter_ge (activation_duration row)).
      repeat split.
      + apply (on_grid_comp _ _ (Qeq_sym _ _ E1)), round_up_quarter_on_grid, Hrd.
      + apply (on_grid_comp _ _ (Qeq_sym _ _ E2)), round_up_quarter_on_grid, Hct.
      + apply (on_grid_comp _ _ (Qeq_sym _ _ E3)), round_up_quarter_on_grid, Had.
      + lra.
    - rewrite (adapt_durations_short _ _ _ Hshort). repeat split.
      + exists 1%Z. split; [lia | reflexivity].
      + exists 0%Z. split; [lia | reflexivity].
      + exists 0%Z. split; [lia | reflexivity].
      + unfold quarter. lra. }
  destruct (adapt_durations _ _ _) as [[rd' ct'] ad'].
  destruct G as (G1 & G2 & G3 & G4).
  unfold py_truediv. destruct (Qeq_bool rd' 0); cbn [bind]; [discriminate|].
  intro Hr. inversion Hr; subst r; clear Hr.
  cbn [retrieval_duration catch_up_time retrieval_frequency].
  split; [exact G1|]. split; [exact G2|].
  exists ad'. split; [exact G3|]. split; [exact G4|].
  apply frequency_cap_fits. unfold quarter in G4. lra.
Qed.

(** C1 (the source departs from the specification).  Normalizing the case with
    retrieval duration 0.1 h, catch-up time 0.05 h, activation duration
    0.05 h and 100000 retrievals a year returns a row that breaks the
    invariant twice: its activation duration is still 0.05 h, off the
    quarter-hour grid, and its cycle of 0.3 h times its capped frequency
    35040 is above 8760 h. *)
Theorem C1_normalized_case_breaks_invariant :
  exists r,
    check_and_adapt_dsm (raw_case 10 0.1 0.05 0.05 100000) = Ok r /\
    activation_duration r = 0.05 /\
    retrieval_frequency r = 35040%Z /\
    ~ on_grid (activation_duration r) /\
    ~ cycle r * inject_Z (retrieval_frequency r) <= hours_per_year /\
    ~ normalized r.
Proof.
  eexists. split; [vm_compute; reflexivity|]. cbn.
  assert (G : ~ on_grid 0.05) by exact twentieth_off_grid.
  repeat split; try assumption.
  - intro H. vm_compute in H. apply H. reflexivity.
  - intros (_ & _ & H & _). cbn in H. contradiction.
Qed.

(** C6 (the source departs from the specification).  On the durations
    (0.1, 0.05, 0.05) of the scenario the retrieval duration becomes 0.25,
    the catch-up time 0 and the power is scaled by 0.4, but the activation
    duration of the returned row is 0.05 and not 0. *)
Theorem C6_short_cycle_keeps_activation_duration :
  exists r,
    check_and_adapt_dsm (raw_case 10 0.1 0.05 0.05 3) = Ok r /\
    retrieval_duration r == 0.25 /\
    catch_up_time r == 0 /\
    power r == 0.4 * 10 /\
    activation_duration r == 0.05 /\
    ~ activation_duration r == 0.
Proof.
  eexists. split; [vm_compute; reflexivity|]. cbn.
  repeat split; try reflexivity.
  intro H. discriminate H.
Qed.

(** C9.  For a cycle longer than a quarter of an hour the returned row
    holds the activation duration of the input (NaN read as 0), whatever
    its value; retrieval duration and catch-up time are rounded up to the
    grid, and the rounded activation duration only enters the duration
    that caps the retrieval frequency.  The call returns unless the
    rounded retrieval duration is 0, where the rescaling of the power
    divides by zero. *)
Theorem C9_activation_duration_passes_through (raw : RawRow) :
  let row := fillna_dict raw in
  let rd := round_up_quarter (retrieval_duration row) in
  let ct := round_up_quarter (catch_up_time row) in
  let ad := round_up_quarter (activation_duration row) in
  quarter < retrieval_duration row + catch_up_time row + activation_duration row ->
  (~ rd == 0 -> exists r, check_and_adapt_dsm raw = Ok r) /\
  (forall e, check_and_adapt_dsm raw = Raise e -> e = ZeroDivisionError /\ rd == 0) /\
  (forall r, check_and_adapt_dsm raw = Ok r ->
     activation_duration r = fillna (raw_activation_duration raw) /\
     retrieval_duration r == rd /\
     catch_up_time r == ct /\
     ((rd + ct + ad) * inject_Z (retrieval_frequency row) <= hours_per_year ->
      retrieval_frequency r = retrieval_frequency row) /\
     (hours_per_year < (rd + ct + ad) * inject_Z (retrieval_frequency row) ->
      retrieval_frequency r = Qfloor (hours_per_year / (rd + ct + ad)))).
Proof.
  intros row rd ct ad Hlong.
  destruct (adapt_durations_long _ _ _ Hlong) as (Hrd & Hct & Had).
  fold rd in Hrd. fold ct in Hct. fold ad in Had.
  unfold check_and_adapt_dsm. fold row.
  destruct (adapt_durations (retrieval_duration row) (catch_up_time row)
                            (activation_duration row)) as [[rd' ct'] ad'].
  cbn [fst snd] in Hrd, Hct, Had. unfold py_truediv.
  destruct (Qeq_bool rd' 0) eqn:Ez; cbn [bind].
  - apply Qeq_bool_iff in Ez. split; [|split].
    + intro Hne. exfalso. apply Hne. rewrite <- Hrd. exact Ez.
    + intros e He. inversion He. split; [reflexivity|]. rewrite <- Hrd. exact Ez.
    + intros r Hr. discriminate Hr.
  - split; [|split].
    + intros _. eexists. reflexivity.
    + intros e He. discriminate He.
    + intros r Hr. inversion Hr; subst r; clear Hr.
      cbn [activation_duration retrieval_duration catch_up_time retrieval_frequency].
      assert (Hd : rd' + ct' + ad' == rd + ct + ad) by (rewrite Hrd, Hct, Had; reflexivity).
      split; [reflexivity|]. split; [assumption|]. split; [assumption|]. split.
      * intro Hle.
        match goal with |- context [if ?c then _ else _] => destruct c eqn:Eg end;
          [|reflexivity].
        apply Qgt_bool_true in Eg. change (raw_retrieval_frequency raw)
          with (retrieval_frequency row) in Eg. rewrite Hd in Eg.
        exfalso. apply (Qlt_not_le _ _ Eg Hle).
      * intro Hgt.
        match goal with |- context [if ?c then _ else _] => destruct c eqn:Eg end.
        -- unfold py_floordiv. apply Qfloor_comp. rewrite Hd. reflexivity.
        -- apply Qgt_bool_false in Eg. change (raw_retrieval_frequency raw)
             with (retrieval_frequency row) in Eg. rewrite Hd in Eg.
           exfalso. apply (Qlt_not_le _ _ Hgt Eg).
Qed.

(** An activation duration of 0.1 h in a cycle of 1.1 h comes back as
    0.1 h. *)
Lemma C9_witness :
  exists r,
    check_and_adapt_dsm (raw_case 10 1 0.1 0 5) = Ok r /\
    activation_duration r = 0.1.
Proof.
  assert (Hlong : quarter < 1 + 0 + 0.1) by reflexivity.
  destruct (C9_activation_duration_passes_through (raw_case 10 1 0.1 0 5) Hlong)
    as (Hret & _ & Hok).
  destruct Hret as [r Hr].
  - intro H. discriminate H.
  - exists r. split; [exact Hr|]. apply (Hok r Hr).
Defined.

(** ** Slices of a frame *)

Lemma iterrows_from_0 {A : Type} (df : list A) : iterrows df = iterrows_from 0 df.
Proof. reflexivity. Qed.

Lemma iterrows_from_cons {A : Type} (k : nat) (x : A) (df : list A) :
  iterrows_from k (x :: df) = (Z.of_nat k, x) :: iterrows_from (S k) df.
Proof. reflexivity. Qed.

Lemma iterrows_from_length {A : Type} (k : nat) (df : list A) :
  List.length (iterrows_from k df) = List.length df.
Proof.
  unfold iterrows_from. rewrite length_combine, length_map, length_seq. lia.
Qed.

Lemma map_snd_iterrows_from {A : Type} (k : nat) (df : list A) :
  map snd (iterrows_from k df) = df.
Proof.
  revert k. induction df as [|x df IH]; intro k; [reflexivity|].
  rewrite iterrows_from_cons. cbn. f_equal. apply IH.
Qed.

Lemma in_iterrows_from {A : Type} (k : nat) (df : list A) (i : Z) (x : A) :
  In (i, x) (iterrows_from k df) <->
  exists j, i = Z.of_nat (k + j) /\ nth_error df j = Some x.
Proof.
  revert k. induction df as [|y df IH]; intro k.
  - cbn. split; [tauto|]. intros [[|j] [_ H]]; discriminate H.
  - rewrite iterrows_from_cons. cbn [In]. rewrite IH. split.
    + intros [E | [j [Ei Ej]]].
      * inversion E. subst. exists 0%nat. split; [f_equal; lia | reflexivity].
      * exists (S j). split; [subst i; f_equal; lia | exact Ej].
    + intros [[|j] [Ei Ej]].
      * left. cbn in Ej. inversion Ej. subst. f_equal. f_equal. lia.
      * right. exists j. split; [subst i; f_equal; lia | exact Ej].
Qed.

Lemma in_slice_encloses (first last : Q) (a m k : nat) :
  encloses first last a m ->
  in_slice first last (Z.of_nat k) = ((a <=? k)%nat && (k <? a + m)%nat).
Proof.
  intros (H1 & H2 & H3 & H4). unfold in_slice.
  rewrite inject_Z_plus in H3, H4.
  destruct (a <=? k)%nat eqn:Ea; cbn [andb].
  - apply Nat.leb_le in Ea.
    assert (L : inject_Z (Z.of_nat a) <= inject_Z (Z.of_nat k))
      by (rewrite <- Zle_Qle; lia).
    assert (F : Qle_bool first (inject_Z (Z.of_nat k)) = true)
      by (apply Qle_bool_iff; lra).
    rewrite F. cbn [andb].
    destruct (k <? a + m)%nat eqn:Ek.
    + apply Nat.ltb_lt in Ek. apply Qle_bool_iff.
      assert (inject_Z (Z.of_nat k) <= inject_Z (Z.of_nat a + Z.of_nat m - 1))
        by (rewrite <- Zle_Qle; lia).
      unfold Z.sub in H. rewrite !inject_Z_plus, inject_Z_opp in H.
      change (inject_Z 1) with 1 in H. lra.
    + apply Nat.ltb_ge in Ek.
      destruct (Qle_bool (inject_Z (Z.of_nat k)) last) eqn:E; [|reflexivity].
      apply Qle_bool_iff in E.
      assert (inject_Z (Z.of_nat a + Z.of_nat m) <= inject_Z (Z.of_nat k))
        by (rewrite <- Zle_Qle; lia).
      rewrite inject_Z_plus in H. lra.
  - apply Nat.leb_gt in Ea.
    destruct (Qle_bool first (inject_Z (Z.of_nat k))) eqn:E; [|reflexivity].
    apply Qle_bool_iff in E.
    assert (inject_Z (Z.of_nat k) <= inject_Z (Z.of_nat a - 1))
      by (rewrite <- Zle_Qle; lia).
    unfold Z.sub in H. rewrite inject_Z_plus, inject_Z_opp in H.
    change (inject_Z 1) with 1 in H. lra.
Qed.

Lemma filter_window {A : Type} (a m : nat) (df : list A) (k : nat) :
  filter (fun ix : Z * A =>
            (a <=? Z.to_nat (fst ix))%nat && (Z.to_nat (fst ix) <? a + m)%nat)
         (iterrows_from k df)
  = iterrows_from (Nat.max k a) (firstn (a + m - Nat.max k a) (skipn (a - k) df)).
Proof.
  revert k. induction df as [|x df IH]; intro k.
  - rewrite skipn_nil, firstn_nil. reflexivity.
  - rewrite iterrows_from_cons. cbn [filter fst].
    rewrite Nat2Z.id, IH. clear IH.
    destruct (a <=? k)%nat eqn:Ea; cbn [andb].
    + apply Nat.leb_le in Ea.
      replace (a - k)%nat with 0%nat by lia.
      replace (a - S k)%nat with 0%nat by lia.
      replace (Nat.max k a) with k by lia.
      replace (Nat.max (S k) a) with (S k) by lia.
      cbn [skipn].
      destruct (k <? a + m)%nat eqn:Ek.
      * apply Nat.ltb_lt in Ek.
        replace (a + m - k)%nat with (S (a + m - S k)) by lia.
        reflexivity.
      * apply Nat.ltb_ge in Ek.
        replace (a + m - k)%nat with 0%nat by lia.
        replace (a + m - S k)%nat with 0%nat by lia.
        reflexivity.
    + apply Nat.leb_gt in Ea.
      replace (a - k)%nat with (S (a - S k)) by lia.
      replace (Nat.max k a) with a by lia.
      replace (Nat.max (S k) a) with a by lia.
      reflexivity.
Qed.

(** A slice that encloses [m] labels from [a] on is the part of the frame
    at these positions, as far as the frame goes. *)
Lemma loc_slice_encloses {A : Type} (first last : Q) (a m : nat) (df : list A) :
  encloses first last a m ->
  loc_slice first last df = iterrows_from a (firstn m (skipn a df)).
Proof.
  intro H. unfold loc_slice. rewrite iterrows_from_0.
  transitivity
    (filter (fun ix : Z * A =>
               (a <=? Z.to_nat (fst ix))%nat && (Z.to_nat (fst ix) <? a + m)%nat)
            (iterrows_from 0 df)).
  - apply filter_ext_in. intros [i x] Hin.
    apply in_iterrows_from in Hin. destruct Hin as [j [Ei _]]. subst i. cbn [fst].
    fold (in_slice first last (Z.of_nat (0 + j))).
    rewrite (in_slice_encloses _ _ _ _ _ H), Nat2Z.id. reflexivity.
  - rewrite filter_window.
    replace (Nat.max 0 a) with a by lia.
    replace (a + m - a)%nat with m by lia.
    replace (a - 0)%nat with a by lia.
    reflexivity.
Qed.

Lemma nth_error_iterrows_from {A : Type} (k : nat) (df : list A) (t : nat) :
  nth_error (iterrows_from k df) t
  = option_map (fun x => (Z.of_nat (k + t), x)) (nth_error df t).
Proof.
  revert k t. induction df as [|x df IH]; intros k [|t]; try reflexivity.
  - rewrite iterrows_from_cons. cbn. do 3 f_equal. lia.
  - rewrite iterrows_from_cons. cbn [nth_error]. rewrite IH.
    destruct (nth_error df t); [|reflexivity]. cbn. do 3 f_equal. lia.
Qed.

Lemma firstn_skipn_seq {A : Type} (d : A) (df : list A) (t w : nat) :
  (t + w <= List.length df)%nat ->
  firstn w (skipn t df) = map (fun i => nth i df d) (seq t w).
Proof.
  revert t w. induction df as [|x df IH]; intros t w H.
  - cbn in H. assert (t = 0%nat) by lia. assert (w = 0%nat) by lia. subst. reflexivity.
  - destruct t as [|t].
    + destruct w as [|w]; [reflexivity|].
      cbn [skipn firstn seq map nth]. f_equal.
      rewrite <- seq_shift, map_map. cbn [nth].
      rewrite <- (IH 0%nat w) by (cbn in H; lia). reflexivity.
    + cbn [skipn]. rewrite <- seq_shift, map_map. cbn [nth].
      apply IH. cbn in H. lia.
Qed.

Lemma series_sum_map_ext {A : Type} (f g : A -> Q) (l : list A) :
  (forall x, f x == g x) -> series_sum (map f l) == series_sum (map g l).
Proof.
  intro H. induction l as [|x l IH]; cbn; [reflexivity|].
  rewrite IH, H. reflexivity.
Qed.

(** ** WindowReductionCalculator *)

Lemma quarters_of_duration (rd : Q) (w : nat) :
  rd == inject_Z (Z.of_nat w) * quarter -> rd * 4 == inject_Z (Z.of_nat w).
Proof. unfold quarter. intro H. lra. Qed.

Lemma encloses_window (rd : Q) (t w : nat) :
  rd * 4 == inject_Z (Z.of_nat w) ->
  encloses (inject_Z (Z.of_nat t)) (inject_Z (Z.of_nat t) + rd * 4 - 1) t w.
Proof.
  intro H. unfold encloses. rewrite inject_Z_plus. repeat split; lra.
Qed.

Lemma block_reduction_window (column : Column) (df : list PriceEmf) (d : PriceEmf)
    (lc : Q) (avg : Q * Q) (rd : Q) (t w : nat) :
  rd == inject_Z (Z.of_nat w) * quarter ->
  (t + w <= List.length df)%nat ->
  block_reduction (Z.of_nat t) column df lc avg rd
  == window_reduction column df d lc (baseline column avg) t w.
Proof.
  intros Hrd Hfit. apply quarters_of_duration in Hrd.
  unfold block_reduction, window_reduction.
  assert (Hlen : inject_Z (Z.of_nat t) + inject_Z (Z.of_nat w) <= len df).
  { unfold len. rewrite <- inject_Z_plus, <- Zle_Qle. lia. }
  assert (G : Qgt_bool (inject_Z (Z.of_nat t) + rd * 4 - 1) (len df) = false).
  { apply Qgt_bool_false. lra. }
  rewrite G, (loc_slice_encloses _ _ t w df (encloses_window rd t w Hrd)).
  rewrite <- (map_map snd (fun x => lc * column_value column x)).
  rewrite map_snd_iterrows_from, (firstn_skipn_seq d) by exact Hfit.
  rewrite map_map.
  assert (B : tuple_item avg match column with
                             | col_emf => 1%nat
                             | col_price => 0%nat
                             end = baseline column avg) by (destruct column; reflexivity).
  rewrite B, Hrd. ring.
Qed.

(** C2.  For a retrieval duration of [w >= 1] quarter-hours and a start
    [t] whose window ends inside the series, the row of start [t] holds,
    for the price and for the emission factor, minus the sum of
    loadChangeMWh * series[i] over the window plus loadChangeMWh * average
    * w, where loadChangeMWh is power / 1000 / 4, negated when and only
    when the case is a load reduction. *)
Theorem C2_window_reduction_formula (df : list PriceEmf) (avg : Q * Q)
    (measure : Measure) (t w : nat) (d : PriceEmf) :
  retrieval_duration measure == inject_Z (Z.of_nat w) * quarter ->
  (1 <= w)%nat ->
  (t + w <= List.length df)%nat ->
  let load_change_MWh :=
    match load_change measure with
    | load_reduction => - (power measure / 1000 / 4)
    | load_increase | combination => power measure / 1000 / 4
    end in
  calc_load_change measure == load_change_MWh /\
  exists rows row,
    blocks_quarter_hour df avg (calc_load_change measure) (retrieval_duration measure)
    = Ok rows /\
    nth_error rows t = Some row /\
    price_reduction row
    == window_reduction col_price df d load_change_MWh (fst avg) t w /\
    emission_reduction row
    == window_reduction col_emf df d load_change_MWh (snd avg) t w.
Proof.
  intros Hrd Hw Hfit lc.
  assert (Hlc : calc_load_change measure == lc).
  { unfold calc_load_change, lc. destruct (load_change measure); ring. }
  split; [exact Hlc|].
  assert (Hwin : forall column avg',
             window_reduction column df d (calc_load_change measure) avg' t w
             == window_reduction column df d lc avg' t w).
  { intros column avg'. unfold window_reduction.
    rewrite (series_sum_map_ext
               (fun i => calc_load_change measure * column_value column (nth i df d))
               (fun i => lc * column_value column (nth i df d))).
    - rewrite Hlc. reflexivity.
    - intro i. rewrite Hlc. reflexivity. }
  destruct (nth_error df t) as [x|] eqn:Ex.
  2:{ apply nth_error_None in Ex. lia. }
  unfold blocks_quarter_hour.
  destruct df as [|x0 df0] eqn:Edf; [destruct t; discriminate Ex|]. rewrite <- Edf in *.
  eexists. eexists. split; [reflexivity|].
  rewrite nth_error_map, iterrows_from_0.
  rewrite nth_error_iterrows_from, Ex. cbn [option_map fst snd Nat.add].
  split; [reflexivity|].
  cbn [price_reduction emission_reduction]. split.
  - rewrite (block_reduction_window col_price df d _ avg _ t w Hrd Hfit).
    apply Hwin.
  - rewrite (block_reduction_window col_emf df d _ avg _ t w Hrd Hfit).
    apply Hwin.
Qed.

(** The start at index 4 of the scenario loses 0.02. *)
Lemma C2_witness :
  exists rows row,
    blocks_quarter_hour scenario_series (30, 60) (calc_load_change scenario_measure)
                        (retrieval_duration scenario_measure) = Ok rows /\
    nth_error rows 4 = Some row /\
    price_reduction row == - 0.02.
Proof.
  assert (H1 : retrieval_duration scenario_measure == inject_Z (Z.of_nat 1) * quarter)
    by reflexivity.
  assert (H2 : (1 <= 1)%nat) by lia.
  assert (H3 : (4 + 1 <= List.length scenario_series)%nat) by (cbn; lia).
  destruct (C2_window_reduction_formula scenario_series (30, 60) scenario_measure
              4 1 (mkPriceEmf 0 0) H1 H2 H3) as [_ [rows [row [Hrows [Hn [Hp _]]]]]].
  exists rows, row. split; [exact Hrows|]. split; [exact Hn|].
  rewrite Hp. reflexivity.
Defined.

(** The test of the source: nothing is computed once the last index of the
    window is above the length of the series. *)
Lemma block_reduction_past_length (t : Z) (column : Column) (df : list PriceEmf)
    (lc : Q) (avg : Q * Q) (rd : Q) :
  len df < inject_Z t + rd * 4 - 1 ->
  block_reduction t column df lc avg rd = 0.
Proof.
  intro H. unfold block_reduction.
  apply Qgt_bool_true in H. rewrite H. reflexivity.
Qed.

(** X1.  A window that ends one index past the last record is not
    refused: the records that exist are summed and the baseline is counted
    for the whole window. *)
Lemma block_reduction_overrun_by_one (column : Column) (df : list PriceEmf)
    (d : PriceEmf) (lc : Q) (avg : Q * Q) (rd : Q) (t w : nat) :
  rd == inject_Z (Z.of_nat w) * quarter ->
  (t + w = S (List.length df))%nat ->
  (1 <= w)%nat ->
  block_reduction (Z.of_nat t) column df lc avg rd
  == - series_sum (map (fun i => lc * column_value column (nth i df d))
                       (seq t (w - 1)))
     + lc * baseline column avg * inject_Z (Z.of_nat w).
Proof.
  intros Hrd Hover Hw. apply quarters_of_duration in Hrd.
  unfold block_reduction.
  assert (Hlen : inject_Z (Z.of_nat t) + inject_Z (Z.of_nat w) == len df + 1).
  { unfold len. change 1 with (inject_Z 1).
    rewrite <- !inject_Z_plus. apply inject_Z_injective. lia. }
  assert (G : Qgt_bool (inject_Z (Z.of_nat t) + rd * 4 - 1) (len df) = false).
  { apply Qgt_bool_false. lra. }
  rewrite G, (loc_slice_encloses _ _ t w df (encloses_window rd t w Hrd)).
  rewrite <- (map_map snd (fun x => lc * column_value column x)).
  rewrite map_snd_iterrows_from.
  assert (F : firstn w (skipn t df) = firstn (w - 1) (skipn t df)).
  { rewrite !firstn_all2; [reflexivity| |]; rewrite length_skipn; lia. }
  rewrite F, (firstn_skipn_seq d) by lia.
  rewrite map_map.
  assert (B : tuple_item avg match column with
                             | col_emf => 1%nat
                             | col_price => 0%nat
                             end = baseline column avg) by (destruct column; reflexivity).
  rewrite B, Hrd. ring.
Qed.

(** C3 (the source departs from the specification).  In a series of two records,
    a retrieval of half an hour (two quarter-hours) that starts at index 1
    would end at index 2, past the last index 1; the source compares that
    end with the length 2, finds it not above, and returns
    -50 + 30 * 2 = 10 for the price and -100 + 60 * 2 = 20 for the emission
    factor instead of 0. *)
Theorem C3_overrun_by_one_is_not_zero :
  let df := [mkPriceEmf 10 20; mkPriceEmf 50 100] in
  inject_Z (Z.of_nat (List.length df)) - 1 < inject_Z 1 + 0.5 * 4 - 1 /\
  block_reduction 1 col_price df 1 (30, 60) 0.5 == 10 /\
  block_reduction 1 col_emf df 1 (30, 60) 0.5 == 20 /\
  ~ block_reduction 1 col_price df 1 (30, 60) 0.5 == 0 /\
  ~ block_reduction 1 col_emf df 1 (30, 60) 0.5 == 0.
Proof.
  cbv zeta. repeat split; try reflexivity; intro H; vm_compute in H; discriminate H.
Qed.

(** ** The pair of averages *)

(** C10.  For a year with one row in the table, the reader returns the
    average price as the first component of the pair and the emission
    factor as the second, and [block_reduction] takes the price baseline
    from the first component and the emission baseline from the second:
    neither objective depends on the other component, and while the window
    is not refused each result moves with its own baseline by
    loadChange * baseline * (rd * 4). *)
Theorem C10_baseline_matches_reader (table : list AverageRow) (year : Z)
    (r : AverageRow) :
  query_year table year = [r] ->
  let avg := (mittlerer_Strompreis r, spez_CO2_Emissionen r) in
  read_avg_price_and_emf table year = ([fst avg], [snd avg]) /\
  In r table /\ Jahr r = year /\
  (forall t df lc rd other,
     block_reduction t col_price df lc (fst avg, other) rd
     = block_reduction t col_price df lc avg rd /\
     block_reduction t col_emf df lc (other, snd avg) rd
     = block_reduction t col_emf df lc avg rd) /\
  (forall t df lc rd,
     inject_Z t + rd * 4 - 1 <= len df ->
     block_reduction t col_price df lc avg rd
     == block_reduction t col_price df lc (0, snd avg) rd + lc * fst avg * (rd * 4) /\
     block_reduction t col_emf df lc avg rd
     == block_reduction t col_emf df lc (fst avg, 0) rd + lc * snd avg * (rd * 4)).
Proof.
  intros Hrow avg. split; [|split; [|split; [|split]]].
  - unfold read_avg_price_and_emf. rewrite Hrow. reflexivity.
  - assert (Hin : In r (query_year table year)) by (rewrite Hrow; left; reflexivity).
    apply filter_In in Hin. apply Hin.
  - assert (Hin : In r (query_year table year)) by (rewrite Hrow; left; reflexivity).
    apply filter_In in Hin. apply Z.eqb_eq, Hin.
  - intros t df lc rd other. split; reflexivity.
  - intros t df lc rd Hfit. apply Qgt_bool_false in Hfit.
    unfold block_reduction. rewrite Hfit.
    cbn [tuple_item fst snd avg]. split; ring.
Qed.

(** The averages of 2023 in a table of two years: price 95 first, emission
    factor 380 second. *)
Lemma C10_witness :
  read_avg_price_and_emf [mkAverageRow 2022 434 235; mkAverageRow 2023 380 95] 2023
  = ([95], [380]).
Proof.
  apply (C10_baseline_matches_reader
           [mkAverageRow 2022 434 235; mkAverageRow 2023 380 95] 2023
           (mkAverageRow 2023 380 95)).
  reflexivity.
Defined.

(** ** BlockPartitioner *)

(** [idxmax_from] returns the label of the first entry that holds the
    maximum. *)
Lemma idxmax_from_first_max (l : list (Z * Q)) (best : Z * Q) :
  exists i p,
    nth_error (best :: l) i = Some p /\
    idxmax_from best l = fst p /\
    (forall q, In q (best :: l) -> snd q <= snd p) /\
    (forall i' q, (i' < i)%nat -> nth_error (best :: l) i' = Some q -> snd q < snd p).
Proof.
  revert best. induction l as [|x l IH]; intro best.
  - exists 0%nat, best. cbn. repeat split.
    + intros q [E | []]. subst. apply Qle_refl.
    + intros i' q Hi. lia.
  - cbn [idxmax_from]. destruct (Qgt_bool (snd x) (snd best)) eqn:E.
    + apply Qgt_bool_true in E.
      destruct (IH x) as (i & p & Hn & Hi & Hmax & Hfirst).
      exists (S i), p. repeat split; try assumption.
      * intros q [Eq | Hq]; [|apply Hmax; exact Hq].
        subst q. apply Qlt_le_weak. eapply Qlt_le_trans; [exact E|].
        apply Hmax. left. reflexivity.
      * intros [|i'] q Hlt Hq.
        -- cbn in Hq. inversion Hq; subst q.
           eapply Qlt_le_trans; [exact E|]. apply Hmax. left. reflexivity.
        -- apply (Hfirst i' q); [lia | exact Hq].
    + apply Qgt_bool_false in E.
      destruct (IH best) as (i & p & Hn & Hi & Hmax & Hfirst).
      destruct i as [|i].
      * cbn in Hn. inversion Hn; subst p.
        exists 0%nat, best. repeat split; try assumption.
        -- intros q [Eq | [Eq | Hq]].
           ++ subst q. apply Qle_refl.
           ++ subst q. exact E.
           ++ apply Hmax. right. exact Hq.
        -- intros i' q Hlt. lia.
      * exists (S (S i)), p. repeat split; try assumption.
        -- intros q [Eq | [Eq | Hq]].
           ++ subst q. apply Hmax. left. reflexivity.
           ++ subst q. eapply Qle_trans; [exact E|]. apply Hmax. left. reflexivity.
           ++ apply Hmax. right. exact Hq.
        -- intros [|[|i']] q Hlt Hq.
           ++ apply (Hfirst 0%nat q); [lia | exact Hq].
           ++ cbn in Hq. inversion Hq; subst q.
              eapply Qle_lt_trans; [exact E|].
              apply (Hfirst 0%nat best); [lia | reflexivity].
           ++ apply (Hfirst (S i') q); [lia | exact Hq].
Qed.

Lemma nth_error_column_of {A : Type} (f : A -> Q) (k : nat) (seg : list A) (i : nat) :
  nth_error (column_of f (iterrows_from k seg)) i
  = option_map (fun x => (Z.of_nat (k + i), f x)) (nth_error seg i).
Proof.
  unfold column_of. rewrite nth_error_map, nth_error_iterrows_from.
  destruct (nth_error seg i); reflexivity.
Qed.

(** [idxmax] on a column of a non-empty slice: the label of the first
    maximum. *)
Lemma idxmax_column {A : Type} (f : A -> Q) (k : nat) (seg : list A) :
  seg <> [] ->
  exists i r,
    idxmax (column_of f (iterrows_from k seg)) = Ok (Z.of_nat (k + i)) /\
    first_max f seg i r.
Proof.
  intro Hne. destruct seg as [|x seg]; [contradiction|].
  pose proof (nth_error_column_of f k (x :: seg)) as Hcol.
  remember (column_of f (iterrows_from k (x :: seg))) as col eqn:Ecol.
  destruct col as [|best l].
  { specialize (Hcol 0%nat). discriminate Hcol. }
  destruct (idxmax_from_first_max l best) as (i & p & Hn & Hi & Hmax & Hfirst).
  cbn [idxmax]. rewrite Hi.
  rewrite Hcol in Hn.
  destruct (nth_error (x :: seg) i) as [r|] eqn:Er; [|discriminate Hn].
  cbn in Hn. inversion Hn; subst p; clear Hn. cbn [fst snd] in *.
  exists i, r. split; [reflexivity|]. split; [exact Er|]. split.
  - intros r' Hin. apply In_nth_error in Hin. destruct Hin as [i' Hi'].
    apply (Hmax (Z.of_nat (k + i'), f r')).
    apply (nth_error_In _ i'). rewrite Hcol, Hi'. reflexivity.
  - intros i' r' Hlt Hi'.
    apply (Hfirst i' (Z.of_nat (k + i'), f r') Hlt).
    rewrite Hcol, Hi'. reflexivity.
Qed.

(** A loop whose body returns at every element returns, one result per
    element. *)
Lemma for_each_ok {A B : Type} (f : A -> Py B) (l : list A) :
  (forall x, In x l -> exists y, f x = Ok y) ->
  exists ys, for_each f l = Ok ys /\ Forall2 (fun x y => f x = Ok y) l ys.
Proof.
  induction l as [|x l IH]; intro H.
  - exists []. split; [reflexivity | constructor].
  - destruct (H x (or_introl eq_refl)) as [y Hy].
    destruct IH as [ys [Hys HF]]; [intros z Hz; apply H; right; exact Hz|].
    exists (y :: ys). cbn [for_each]. rewrite Hy. cbn [bind]. rewrite Hys.
    split; [reflexivity | constructor; assumption].
Qed.

Lemma Forall2_nth_error_r {A B : Type} (R : A -> B -> Prop) (l : list A) (l' : list B)
    (j : nat) (y : B) :
  Forall2 R l l' -> nth_error l' j = Some y ->
  exists x, nth_error l j = Some x /\ R x y.
Proof.
  intro H. revert j. induction H as [|x y' l l' Hxy _ IH]; intros [|j] Hj;
    try discriminate Hj.
  - cbn in Hj. inversion Hj; subst. exists x. split; [reflexivity | exact Hxy].
  - apply IH. exact Hj.
Qed.

(** The starts of the blocks: 0, L, 2L, ... below the length of the
    frame. *)
Lemma py_range_blocks (N L : nat) :
  (1 <= L)%nat ->
  exists n,
    py_range 0 (Z.of_nat N) (Z.of_nat L)
    = Ok (map (fun j => Z.of_nat (j * L)) (seq 0 n)) /\
    (N <= n * L)%nat /\
    (forall j, (j < n)%nat -> (j * L < N)%nat).
Proof.
  intro HL. unfold py_range.
  assert (E0 : (Z.of_nat L =? 0)%Z = false) by (apply Z.eqb_neq; lia).
  assert (E1 : (0 <? Z.of_nat L)%Z = true) by (apply Z.ltb_lt; lia).
  rewrite E0, E1.
  set (q := ((Z.of_nat N - 0 + Z.of_nat L - 1) / Z.of_nat L)%Z).
  assert (Hdm := Z.div_mod (Z.of_nat N - 0 + Z.of_nat L - 1) (Z.of_nat L)).
  assert (Hmod := Z.mod_pos_bound (Z.of_nat N - 0 + Z.of_nat L - 1) (Z.of_nat L)).
  fold q in Hdm.
  assert (Hq : (0 <= q)%Z) by (apply Z.div_pos; lia).
  exists (Z.to_nat q). split; [|split].
  - f_equal. apply map_ext. intro j. lia.
  - apply Nat2Z.inj_le. rewrite Nat2Z.inj_mul, Z2Nat.id by exact Hq. nia.
  - intros j Hj. apply Nat2Z.inj_lt. rewrite Nat2Z.inj_mul.
    assert (Z.of_nat j <= q - 1)%Z by lia. nia.
Qed.

Lemma segment_nonempty {A : Type} (df : list A) (L j : nat) :
  (1 <= L)%nat -> (j * L < List.length df)%nat -> segment df L j <> [].
Proof.
  intros HL Hj E. apply (f_equal (@List.length A)) in E.
  unfold segment in E. rewrite length_firstn, length_skipn in E. cbn in E. lia.
Qed.

Lemma nth_error_segment {A : Type} (df : list A) (L j i : nat) (r : A) :
  nth_error (segment df L j) i = Some r -> nth_error df (j * L + i) = Some r.
Proof.
  unfold segment. rewrite nth_error_firstn.
  destruct (i <? L)%nat; [|discriminate]. rewrite nth_error_skipn. tauto.
Qed.

(** The segments cover the frame, in order and without overlap. *)
Lemma concat_segments {A : Type} (L n : nat) (df : list A) :
  (List.length df <= n * L)%nat ->
  List.concat (map (segment df L) (seq 0 n)) = df.
Proof.
  revert df. induction n as [|n IH]; intros df H.
  - destruct df; [reflexivity | cbn in H; lia].
  - cbn [seq map List.concat]. rewrite <- seq_shift, map_map.
    rewrite (map_ext (fun j => segment df L (S j)) (segment (skipn L df) L)).
    + rewrite IH by (rewrite length_skipn; lia).
      unfold segment. cbn [Nat.mul skipn]. apply firstn_skipn.
    + intro j. unfold segment. rewrite skipn_skipn. f_equal. f_equal. lia.
Qed.

Lemma loc_at_nth_error {A : Type} (df : list A) (k : nat) (r : A) :
  nth_error df k = Some r -> loc_at df (Z.of_nat k) = Ok r.
Proof.
  intro H. unfold loc_at.
  assert (E : (Z.of_nat k <? 0)%Z = false) by (apply Z.ltb_ge; lia).
  rewrite E, Nat2Z.id, H. reflexivity.
Qed.

Lemma block_at_segment (df : list ReductionRow) (L j : nat) :
  (1 <= L)%nat -> (j * L < List.length df)%nat ->
  exists b,
    block_at df (Z.of_nat L) (Z.of_nat (j * L)) = Ok b /\
    block_of_segment (segment df L j) b.
Proof.
  intros HL Hj. unfold block_at.
  assert (Henc : encloses (inject_Z (Z.of_nat (j * L)))
                          (inject_Z (Z.of_nat (j * L) + Z.of_nat L - 1)) (j * L) L).
  { unfold encloses, Z.sub. rewrite !inject_Z_plus, inject_Z_opp.
    change (inject_Z 1) with 1. repeat split; lra. }
  rewrite (loc_slice_encloses _ _ _ _ df Henc). fold (segment df L j).
  pose proof (segment_nonempty df L j HL Hj) as Hne.
  destruct (idxmax_column emission_reduction (j * L) _ Hne) as (i0 & r0 & E0 & M0).
  destruct (idxmax_column price_reduction (j * L) _ Hne) as (i1 & r1 & E1 & M1).
  rewrite E0. cbn [bind]. rewrite E1. cbn [bind].
  rewrite (loc_at_nth_error df _ r0) by (apply nth_error_segment, M0). cbn [bind].
  rewrite (loc_at_nth_error df _ r1) by (apply nth_error_segment, M1). cbn [bind].
  eexists. split; [reflexivity|]. split.
  - exists i0, r0. repeat split; try apply M0.
  - exists i1, r1. repeat split; try apply M1.
Qed.

(** The blocks of [max_in_block]: as many as there are starts below the
    length of the frame, each one built from its segment. *)
Lemma max_in_block_segments (df : list ReductionRow) (length : Q) (L : nat) :
  py_int (length * 4) = Z.of_nat L ->
  (1 <= L)%nat ->
  exists blocks,
    max_in_block df length = Ok blocks /\
    (List.length df <= List.length blocks * L)%nat /\
    (forall j, (j < List.length blocks)%nat -> (j * L < List.length df)%nat) /\
    (forall j b, nth_error blocks j = Some b -> block_of_segment (segment df L j) b).
Proof.
  intros Hint HL. unfold max_in_block. rewrite Hint.
  destruct (py_range_blocks (List.length df) L HL) as (n & Hrange & Hcover & Hstart).
  rewrite Hrange. cbn [bind].
  destruct (for_each_ok (block_at df (Z.of_nat L))
                        (map (fun j => Z.of_nat (j * L)) (seq 0 n)))
    as (blocks & Hblocks & Hall).
  { intros x Hx. apply in_map_iff in Hx. destruct Hx as (j & Ex & Hj).
    apply in_seq in Hj. subst x.
    destruct (block_at_segment df L j HL) as (b & Hb & _); [apply Hstart; lia|].
    exists b. exact Hb. }
  exists blocks. split; [exact Hblocks|].
  assert (Hlen : List.length blocks = n).
  { rewrite <- (Forall2_length Hall), length_map, length_seq. reflexivity. }
  rewrite Hlen. split; [exact Hcover|]. split; [exact Hstart|].
  intros j b Hb.
  destruct (Forall2_nth_error_r _ _ _ j b Hall Hb) as (x & Hx & Hxb).
  rewrite nth_error_map, nth_error_seq in Hx.
  destruct (j <? n)%nat eqn:Ej; [|discriminate Hx].
  apply Nat.ltb_lt in Ej. cbn in Hx. inversion Hx; subst x; clear Hx.
  destruct (block_at_segment df L j HL (Hstart j Ej)) as (b' & Hb' & Hseg).
  rewrite Hxb in Hb'. inversion Hb'; subst b'. exact Hseg.
Qed.

(** C4.  With a block length of [L >= 1] quarter-hours, [max_in_block]
    returns one block per segment of [L] consecutive rows; the segments
    follow one another without overlap and cover the series, the last one
    being shorter when [L] does not divide the length.  In every block,
    'max. emission' is the maximum of the emission reductions of the
    segment, taken at its first position, and 'ass. cost' is the price
    reduction of the row at that position; 'max. cost' and 'ass. emission'
    are the same with the two columns exchanged. *)
Theorem C4_blocks_hold_segment_maxima (df : list ReductionRow) (length : Q) (L : nat) :
  py_int (length * 4) = Z.of_nat L ->
  (1 <= L)%nat ->
  exists blocks,
    max_in_block df length = Ok blocks /\
    List.concat (map (segment df L) (seq 0 (List.length blocks))) = df /\
    forall j b,
      nth_error blocks j = Some b ->
      segment df L j <> [] /\
      (List.length (segment df L j) <= L)%nat /\
      ((S j < List.length blocks)%nat -> List.length (segment df L j) = L) /\
      block_of_segment (segment df L j) b.
Proof.
  intros Hint HL.
  destruct (max_in_block_segments df length L Hint HL)
    as (blocks & Hblocks & Hcover & Hstart & Hseg).
  exists blocks. split; [exact Hblocks|]. split.
  - apply concat_segments. exact Hcover.
  - intros j b Hb.
    assert (Hj : (j < List.length blocks)%nat).
    { apply nth_error_Some. rewrite Hb. discriminate. }
    split; [apply segment_nonempty; [exact HL | apply Hstart; exact Hj]|].
    split; [unfold segment; rewrite length_firstn; lia|].
    split; [|apply (Hseg j b Hb)].
    intro Hnext. specialize (Hstart (S j) Hnext).
    unfold segment. rewrite length_firstn, length_skipn. cbn in Hstart. lia.
Qed.

(** Three rows in blocks of two: the first block takes its emission
    maximum 5 with the price reduction 1 of the same row, not the price
    maximum 9 of the segment. *)
Lemma C4_witness :
  exists blocks,
    max_in_block [mkReductionRow 0 0 5 1; mkReductionRow 0 0 2 9; mkReductionRow 0 0 3 3]
                 0.5 = Ok blocks /\
    List.length blocks = 2%nat.
Proof.
  destruct (C4_blocks_hold_segment_maxima
              [mkReductionRow 0 0 5 1; mkReductionRow 0 0 2 9; mkReductionRow 0 0 3 3]
              0.5 2 eq_refl (le_S _ _ (le_n 1)))
    as (blocks & Hb & _ & _).
  exists blocks. split; [exact Hb|].
  vm_compute in Hb. inversion Hb. reflexivity.
Defined.

(** ** AnnualAggregator *)

Lemma filter_split_permutation {A : Type} (f : A -> bool) (l : list A) :
  Permutation (filter f l ++ filter (fun x => negb (f x)) l) l.
Proof.
  induction l as [|x l IH]; [constructor|].
  cbn [filter]. destruct (f x); cbn [negb app].
  - constructor. exact IH.
  - apply Permutation_sym, Permutation_cons_app, Permutation_sym. exact IH.
Qed.

Lemma sorted_app_desc (l1 l2 : list (Q * Q)) :
  StronglySorted desc (l1 ++ l2) ->
  StronglySorted desc l1 /\ forall a b, In a l1 -> In b l2 -> desc a b.
Proof.
  induction l1 as [|x l1 IH]; intro H.
  - split; [constructor | intros a b []].
  - cbn in H. apply StronglySorted_inv in H. destruct H as [Hs Hx].
    destruct (IH Hs) as [Hs1 Hcross]. split.
    + constructor; [exact Hs1|]. apply Forall_app in Hx. apply Hx.
    + intros a b [Ea | Ha] Hb.
      * subst a. rewrite Forall_forall in Hx. apply Hx, in_or_app. right. exact Hb.
      * apply Hcross; assumption.
Qed.

Lemma sorted_filter_desc (f : Q * Q -> bool) (l : list (Q * Q)) :
  StronglySorted desc l -> StronglySorted desc (filter f l).
Proof.
  induction l as [|x l IH]; intro H; [constructor|].
  apply StronglySorted_inv in H. destruct H as [Hs Hx].
  cbn [filter]. destruct (f x); [|apply IH; exact Hs].
  constructor; [apply IH; exact Hs|].
  rewrite Forall_forall in *. intros y Hy. apply Hx.
  apply filter_In in Hy. apply Hy.
Qed.

Lemma filter_shorter_witness {A : Type} (f : A -> bool) (l : list A) :
  (List.length (filter f l) < List.length l)%nat -> exists x, In x l /\ f x = false.
Proof.
  induction l as [|x l IH]; cbn [filter List.length]; intro H; [lia|].
  destruct (f x) eqn:E.
  - cbn [List.length] in H. destruct IH as [y [Hy Fy]]; [lia|].
    exists y. split; [right; exact Hy | exact Fy].
  - exists x. split; [left; reflexivity | exact E].
Qed.

Section AnnualAggregator.

Variable sort_values : list (Q * Q) -> list (Q * Q).

(** What pandas promises of [sort_values]: the same rows, in descending
    order of the sorted column. *)
Hypothesis sort_values_permutation : forall df, Permutation (sort_values df) df.
Hypothesis sort_values_sorted : forall df, StronglySorted desc (sort_values df).

Lemma top_k_is_top_k (k : Z) (df : list (Q * Q)) :
  (0 <= k)%Z -> is_top_k k df (top_k sort_values k df).
Proof.
  intro Hk. unfold top_k, head.
  assert (E : (0 <=? k)%Z = true) by (apply Z.leb_le; exact Hk). rewrite E.
  set (n := Z.to_nat k). set (sorted := sort_values df).
  set (pos := fun r : Q * Q => Qgt_bool (fst r) 0).
  pose proof (sort_values_sorted df) as Hs. fold sorted in Hs.
  rewrite <- (firstn_skipn n sorted) in Hs.
  destruct (sorted_app_desc _ _ Hs) as [Hhd Hcross].
  assert (Hneg : forall x, In x (filter (fun r => negb (pos r)) (firstn n sorted)) ->
                           fst x <= 0).
  { intros x Hx. apply filter_In in Hx. destruct Hx as [_ Hx].
    apply negb_true_iff in Hx. apply Qgt_bool_false in Hx. exact Hx. }
  exists (filter (fun r => negb (pos r)) (firstn n sorted) ++ skipn n sorted).
  split; [|split; [|split; [|split; [|split]]]].
  - rewrite app_assoc.
    rewrite (Permutation_app_tail _ (filter_split_permutation pos (firstn n sorted))).
    rewrite firstn_skipn. apply sort_values_permutation.
  - apply sorted_filter_desc. exact Hhd.
  - pose proof (filter_length_le pos (firstn n sorted)) as H1.
    pose proof (firstn_le_length n sorted) as H2. lia.
  - apply Forall_forall. intros s Hs'. apply filter_In in Hs'.
    destruct Hs' as [_ Hs']. apply Qgt_bool_true in Hs'. exact Hs'.
  - intros s x Hs' Hx. apply filter_In in Hs'. destruct Hs' as [Hin Hpos].
    apply Qgt_bool_true in Hpos. apply in_app_or in Hx. destruct Hx as [Hx | Hx].
    + apply Qlt_le_weak. eapply Qle_lt_trans; [apply Hneg; exact Hx | exact Hpos].
    + apply (Hcross s x Hin Hx).
  - intro Hfew. apply Forall_forall. intros x Hx.
    apply in_app_or in Hx. destruct Hx as [Hx | Hx]; [apply Hneg; exact Hx|].
    assert (Hlen : List.length (firstn n sorted) = n).
    { apply firstn_length_le.
      destruct (Nat.le_gt_cases n (List.length sorted)) as [Hle | Hgt]; [exact Hle|].
      rewrite skipn_all2 in Hx by lia. destruct Hx. }
    destruct (filter_shorter_witness pos (firstn n sorted)) as (y & Hy & Fy); [lia|].
    apply Qgt_bool_false in Fy.
    eapply Qle_trans; [apply (Hcross y x Hy Hx) | exact Fy].
Qed.

(** C5.  With a retrieval frequency [k >= 0]: when the emission objective
    is asked for, the two emission cells are the sum of 'max. emission'
    and the sum of 'ass. cost' over the same top-[k] rows of the blocks
    by 'max. emission', rows at or below 0 left out; when it is not, both
    cells are the string 'NaN'.  The cost objective does the same with
    'max. cost' and 'ass. emission'.  The string is not the number 0. *)
Theorem C5_annual_potential_sums_top_k (measure : MeasureKey) (blocks : list Block)
    (max_co2 max_cost : bool) :
  (0 <= key_retrieval_frequency measure)%Z ->
  let k := key_retrieval_frequency measure in
  let result := calc_annual_potential sort_values measure blocks max_co2 max_cost in
  (if max_co2 then
     exists selected,
       is_top_k k (emission_frame blocks) selected /\
       res_max_emission result = Num (series_sum (map fst selected)) /\
       res_ass_cost result = Num (series_sum (map snd selected))
   else
     res_max_emission result = NaN_string /\ res_ass_cost result = NaN_string) /\
  (if max_cost then
     exists selected,
       is_top_k k (cost_frame blocks) selected /\
       res_max_cost result = Num (series_sum (map fst selected)) /\
       res_ass_emission result = Num (series_sum (map snd selected))
   else
     res_max_cost result = NaN_string /\ res_ass_emission result = NaN_string) /\
  NaN_string <> Num 0.
Proof.
  intros Hk k result. split; [|split].
  - destruct max_co2; [|split; reflexivity].
    exists (top_k sort_values k (emission_frame blocks)).
    split; [apply top_k_is_top_k; exact Hk | split; reflexivity].
  - destruct max_cost; [|split; destruct max_co2; reflexivity].
    exists (top_k sort_values k (cost_frame blocks)).
    split; [apply top_k_is_top_k; exact Hk | split; destruct max_co2; reflexivity].
  - discriminate.
Qed.

End AnnualAggregator.

Lemma insert_desc_permutation (x : Q * Q) (l : list (Q * Q)) :
  Permutation (insert_desc x l) (x :: l).
Proof.
  induction l as [|y l IH]; cbn [insert_desc]; [apply Permutation_refl|].
  destruct (Qle_bool (fst y) (fst x)); [apply Permutation_refl|].
  rewrite IH. apply perm_swap.
Qed.

Lemma insert_desc_sorted (x : Q * Q) (l : list (Q * Q)) :
  StronglySorted desc l -> StronglySorted desc (insert_desc x l).
Proof.
  induction l as [|y l IH]; intro H; cbn [insert_desc].
  - repeat constructor.
  - pose proof H as H'. apply StronglySorted_inv in H'. destruct H' as [Hs Hy].
    destruct (Qle_bool (fst y) (fst x)) eqn:E.
    + apply Qle_bool_iff in E. constructor; [exact H|].
      constructor; [exact E|].
      rewrite Forall_forall in *. intros z Hz. unfold desc in *.
      eapply Qle_trans; [apply Hy; exact Hz | exact E].
    + constructor; [apply IH; exact Hs|].
      assert (Hx : desc y x).
      { unfold desc. apply Qlt_le_weak, Qgt_bool_true.
        unfold Qgt_bool. rewrite E. reflexivity. }
      apply (Permutation_Forall (Permutation_sym (insert_desc_permutation x l))).
      constructor; assumption.
Qed.

Lemma insertion_sort_desc_permutation (df : list (Q * Q)) :
  Permutation (insertion_sort_desc df) df.
Proof.
  induction df as [|x df IH]; [constructor|].
  cbn. rewrite insert_desc_permutation. constructor. exact IH.
Qed.

Lemma insertion_sort_desc_sorted (df : list (Q * Q)) :
  StronglySorted desc (insertion_sort_desc df).
Proof.
  induction df as [|x df IH]; [constructor|].
  cbn. apply insert_desc_sorted. exact IH.
Qed.

(** The scenario with the cost objective only: the emission cells hold the
    string 'NaN', the cost cells the sums over two top rows. *)
Lemma C5_witness :
  let result :=
    calc_annual_potential insertion_sort_desc scenario_key scenario_blocks false true in
  (res_max_emission result = NaN_string /\ res_ass_cost result = NaN_string) /\
  (exists selected,
     is_top_k 2 (cost_frame scenario_blocks) selected /\
     res_max_cost result = Num (series_sum (map fst selected)) /\
     res_ass_emission result = Num (series_sum (map snd selected))) /\
  NaN_string <> Num 0.
Proof.
  assert (Hk : (0 <= key_retrieval_frequency scenario_key)%Z) by (cbn; lia).
  exact (C5_annual_potential_sums_top_k insertion_sort_desc
           insertion_sort_desc_permutation insertion_sort_desc_sorted
           scenario_key scenario_blocks false true Hk).
Defined.

Lemma reversed_sort_desc_permutation (df : list (Q * Q)) :
  Permutation (reversed_sort_desc df) df.
Proof.
  unfold reversed_sort_desc. rewrite insertion_sort_desc_permutation.
  apply Permutation_sym, Permutation_rev.
Qed.

Lemma reversed_sort_desc_sorted (df : list (Q * Q)) :
  StronglySorted desc (reversed_sort_desc df).
Proof. apply insertion_sort_desc_sorted. Qed.

(** The two hypotheses on [sort_values] leave the order of rows of equal
    key open.  Both sorting functions above meet them; on two blocks of
    equal 'max. emission' and one retrieval a year, the first keeps the
    earlier block, with the associated cost 5, and the second the later
    one, with the associated cost 7. *)
Lemma tie_order_is_left_to_sort_values :
  let blocks := [mkBlock 1 5 0 0; mkBlock 1 7 0 0] in
  let key := mkMeasureKey "TP1" "measure" potential max_power load_increase 1 in
  (exists q, res_ass_cost (calc_annual_potential insertion_sort_desc key blocks true false)
             = Num q /\ q == 5) /\
  (exists q, res_ass_cost (calc_annual_potential reversed_sort_desc key blocks true false)
             = Num q /\ q == 7).
Proof.
  split; eexists; (split; [vm_compute; reflexivity | reflexivity]).
Qed.

(** ** ComboResolver *)


Lemma blocks_quarter_hour_length (df : list PriceEmf) (avg : Q * Q) (lc rd : Q) :
  df <> [] ->
  exists rows,
    blocks_quarter_hour df avg lc rd = Ok rows /\ List.length rows = List.length df.
Proof.
  intro Hdf. unfold blocks_quarter_hour.
  destruct df as [|x df'] eqn:E; [contradiction|]. rewrite <- E.
  eexists. split; [reflexivity|].
  rewrite length_map, iterrows_from_0. apply iterrows_from_length.
Qed.



Lemma calc_blocks_count (float_round : Q -> Q) (measure : Measure) (df : list PriceEmf)
    (avg : Q * Q) (L : nat) :
  df <> [] ->
  py_int (calc_rc_length float_round measure * 4) = Z.of_nat L ->
  (1 <= L)%nat ->
  exists blocks,
    calc_blocks float_round measure df avg = Ok blocks /\
    (List.length df <= List.length blocks * L)%nat /\
    (forall j, (j < List.length blocks)%nat -> (j * L < List.length df)%nat).
Proof.
  intros Hdf Hint HL. unfold calc_blocks.
  destruct (blocks_quarter_hour_length df avg (calc_load_change measure)
              (retrieval_duration measure) Hdf) as (rows & Hrows & Hlen).
  rewrite Hrows. cbn [bind].
  destruct (max_in_block_segments rows (calc_rc_length float_round measure) L Hint HL)
    as (blocks & Hb & Hcover & Hstart & _).
  rewrite Hlen in Hcover, Hstart.
  exists blocks. repeat split; assumption.
Qed.

Section ComboResolver.

Variable float_round : Q -> Q.
Variable sort_values : list (Q * Q) -> list (Q * Q).


End ComboResolver.


(** The test of the two cycle lengths is a test of two float sums.  For
    the cases [reduction_907s] and [increase_7s] the sums 0.25 + 907 / 3600
    and 0.5 + 7 / 3600 are rounded to two neighbouring floats,
    0.5019444444444445 and 0.5019444444444444: the block length is two
    quarter-hours for both, and no combination is computed. *)
Lemma calc_measure_combo_last_bit :
  calc_rc_length round_below_one reduction_907s * inject_Z (2 ^ 53)
  == inject_Z 4521113625921382 /\
  calc_rc_length round_below_one increase_7s * inject_Z (2 ^ 53)
  == inject_Z 4521113625921381 /\
  exists rows,
    calc_measure_combo round_below_one insertion_sort_desc reduction_907s increase_7s
                       scenario_series (30, 60) [] true false = Ok rows /\
    List.length rows = 2%nat.
Proof.
  split; [vm_compute; reflexivity|]. split; [vm_compute; reflexivity|].
  eexists. split; [vm_compute; reflexivity | reflexivity].
Qed.

(** * Further properties *)

(** ** check_and_adapt_dsm *)

Lemma round_up_quarter_zero (q : Q) :
  round_up_quarter q == 0 <-> - quarter < q /\ q <= 0.
Proof.
  unfold round_up_quarter, quarter.
  pose proof (Qle_ceiling (q * 4)) as H1. pose proof (Qceiling_lt (q * 4)) as H2.
  unfold Z.sub in H2. rewrite inject_Z_plus, inject_Z_opp in H2.
  change (inject_Z 1) with 1 in H2. split.
  - intro H. split; lra.
  - intros [Hlo Hhi].
    assert (C : Qceiling (q * 4) = 0%Z).
    { apply Qceiling_unique; [change (inject_Z (0 - 1)) with (-1) | change (inject_Z 0) with 0];
        lra. }
    rewrite C. reflexivity.
Qed.

(** X2.  Whenever [check_and_adapt_dsm] returns, the energy of one
    retrieval, power times retrieval duration, is the one of the input
    (NaN read as 0), whatever the rounding did to the duration. *)
Theorem check_and_adapt_dsm_keeps_energy (raw : RawRow) (r : Measure) :
  check_and_adapt_dsm raw = Ok r ->
  power r * retrieval_duration r
  == power (fillna_dict raw) * retrieval_duration (fillna_dict raw).
Proof.
  unfold check_and_adapt_dsm.
  destruct (adapt_durations _ _ _) as [[rd' ct'] ad'].
  unfold py_truediv. destruct (Qeq_bool rd' 0) eqn:E; cbn [bind]; [discriminate|].
  intro H. inversion H; subst r; clear H.
  cbn [power retrieval_duration fillna_dict].
  assert (Hne : ~ rd' == 0) by (intro Hz; apply Qeq_bool_iff in Hz; congruence).
  field. exact Hne.
Qed.

(** A power of 10 kW for 0.1 h comes back as 4 kW for 0.25 h. *)
Lemma check_and_adapt_dsm_keeps_energy_witness :
  exists r,
    check_and_adapt_dsm (raw_case 10 0.1 0.05 0.05 3) = Ok r /\
    power r * retrieval_duration r == 10 * 0.1.
Proof.
  eexists. split; [vm_compute; reflexivity|].
  apply (check_and_adapt_dsm_keeps_energy (raw_case 10 0.1 0.05 0.05 3)).
  vm_compute. reflexivity.
Defined.

(** X3.  The only exception of [check_and_adapt_dsm] is
    [ZeroDivisionError], of the division of the power by the adapted
    retrieval duration.  A positive retrieval duration never raises it: the
    call returns.  A retrieval duration of 0 (or NaN, read as 0) raises it
    as soon as the catch-up time alone, or the activation duration alone,
    is longer than a quarter of an hour, the other one being not
    negative: the cycle is then not replaced by the quarter-hour of
    retrieval, and 0 is on the grid and stays. *)
Theorem check_and_adapt_dsm_raises (raw : RawRow) :
  let row := fillna_dict raw in
  (forall e, check_and_adapt_dsm raw = Raise e -> e = ZeroDivisionError) /\
  (0 < retrieval_duration row -> exists r, check_and_adapt_dsm raw = Ok r) /\
  (retrieval_duration row == 0 ->
   quarter < catch_up_time row /\ 0 <= activation_duration row \/
   quarter < activation_duration row /\ 0 <= catch_up_time row ->
   check_and_adapt_dsm raw = Raise ZeroDivisionError).
Proof.
  intro row. unfold check_and_adapt_dsm. fold row. split; [|split].
  - destruct (adapt_durations _ _ _) as [[rd' ct'] ad'].
    unfold py_truediv. destruct (Qeq_bool rd' 0); cbn [bind]; intros e He.
    + inversion He. reflexivity.
    + discriminate He.
  - intro Hpos.
    destruct (Qlt_le_dec quarter (retrieval_duration row + catch_up_time row
                                  + activation_duration row)) as [Hlong | Hshort].
    + destruct (adapt_durations_long _ _ _ Hlong) as (E1 & _).
      destruct (adapt_durations _ _ _) as [[rd' ct'] ad']. cbn [fst snd] in E1.
      unfold py_truediv. destruct (Qeq_bool rd' 0) eqn:E; cbn [bind].
      * exfalso. apply Qeq_bool_iff in E.
        pose proof (round_up_quarter_ge (retrieval_duration row)) as Hge.
        rewrite <- E1, E in Hge. apply (Qlt_not_le _ _ Hpos Hge).
      * eexists. reflexivity.
    + rewrite (adapt_durations_short _ _ _ Hshort). cbn. eexists. reflexivity.
  - intros Hzero Hlate.
    assert (Hlong : quarter < retrieval_duration row + catch_up_time row
                              + activation_duration row)
      by (unfold quarter in *; destruct Hlate as [[H1 H2] | [H1 H2]]; lra).
    destruct (adapt_durations_long _ _ _ Hlong) as (E1 & _).
    destruct (adapt_durations _ _ _) as [[rd' ct'] ad']. cbn [fst snd] in E1.
    assert (Hz : rd' == 0).
    { rewrite E1. apply round_up_quarter_zero. unfold quarter. lra. }
    unfold py_truediv. apply Qeq_bool_iff in Hz. rewrite Hz. reflexivity.
Qed.

(** A case without retrieval duration and with a catch-up time of one
    hour. *)
Lemma check_and_adapt_dsm_raises_witness :
  check_and_adapt_dsm (raw_case 10 0 0 1 5) = Raise ZeroDivisionError.
Proof.
  apply (check_and_adapt_dsm_raises (raw_case 10 0 0 1 5)).
  - reflexivity.
  - left. split; [reflexivity | discriminate].
Defined.

Lemma adapted_cycle_positive (rd ct ad : Q) : 0 < adapted_cycle rd ct ad.
Proof.
  unfold adapted_cycle. destruct (Qle_bool (rd + ct + ad) quarter) eqn:E.
  - reflexivity.
  - assert (H : quarter < rd + ct + ad).
    { apply Qgt_bool_true. unfold Qgt_bool. rewrite E. reflexivity. }
    pose proof (round_up_quarter_ge rd). pose proof (round_up_quarter_ge ct).
    pose proof (round_up_quarter_ge ad). unfold quarter in H. lra.
Qed.

Lemma adapt_durations_cycle (rd ct ad : Q) :
  fst (fst (adapt_durations rd ct ad)) + snd (fst (adapt_durations rd ct ad))
  + snd (adapt_durations rd ct ad) == adapted_cycle rd ct ad.
Proof.
  unfold adapted_cycle.
  destruct (Qle_bool (rd + ct + ad) quarter) eqn:E.
  - apply Qle_bool_iff in E. rewrite (adapt_durations_short _ _ _ E). cbn [fst snd].
    unfold quarter. lra.
  - assert (H : quarter < rd + ct + ad).
    { apply Qgt_bool_true. unfold Qgt_bool. rewrite E. reflexivity. }
    destruct (adapt_durations_long _ _ _ H) as (E1 & E2 & E3).
    rewrite E1, E2, E3. reflexivity.
Qed.

(** The cap of the source is a minimum. *)
Lemma frequency_cap_min (duration : Q) (rf : Z) :
  0 < duration ->
  (if Qgt_bool (duration * inject_Z rf) hours_per_year
   then py_floordiv hours_per_year duration else rf)
  = Z.min rf (Qfloor (hours_per_year / duration)).
Proof.
  intro Hpos. unfold py_floordiv.
  pose proof (Qfloor_le (hours_per_year / duration)) as Hfl.
  destruct (Qgt_bool (duration * inject_Z rf) hours_per_year) eqn:E.
  - apply Qgt_bool_true in E.
    assert (H : hours_per_year / duration < inject_Z rf).
    { apply Qlt_shift_div_r; [exact Hpos|]. rewrite Qmult_comm. exact E. }
    assert (Hz : (Qfloor (hours_per_year / duration) < rf)%Z).
    { rewrite Zlt_Qlt. eapply Qle_lt_trans; eassumption. }
    lia.
  - apply Qgt_bool_false in E.
    assert (H : inject_Z rf <= hours_per_year / duration).
    { apply Qle_shift_div_l; [exact Hpos|]. rewrite Qmult_comm. exact E. }
    apply Qfloor_resp_le in H. rewrite Qfloor_Z in H. lia.
Qed.

(** The cap on the cycle that the source adds up after its first check. *)
Lemma check_and_adapt_dsm_frequency_cap (raw : RawRow) (r : Measure) :
  let row := fillna_dict raw in
  check_and_adapt_dsm raw = Ok r ->
  retrieval_frequency r
  = Z.min (retrieval_frequency row)
          (Qfloor (hours_per_year
                   / adapted_cycle (retrieval_duration row) (catch_up_time row)
                                   (activation_duration row))).
Proof.
  intro row. unfold check_and_adapt_dsm. fold row.
  pose proof (adapt_durations_cycle (retrieval_duration row) (catch_up_time row)
                                    (activation_duration row)) as Hc.
  pose proof (adapted_cycle_positive (retrieval_duration row) (catch_up_time row)
                                     (activation_duration row)) as Hp.
  destruct (adapt_durations _ _ _) as [[rd' ct'] ad']. cbn [fst snd] in Hc.
  unfold py_truediv. destruct (Qeq_bool rd' 0); cbn [bind]; [discriminate|].
  intro H. inversion H; subst r; clear H. cbn [retrieval_frequency].
  rewrite frequency_cap_min by (rewrite Hc; exact Hp).
  f_equal. apply Qfloor_comp. rewrite Hc. reflexivity.
Qed.

Lemma on_grid_py_mod (q : Q) : on_grid q -> py_mod q quarter == 0.
Proof.
  intros (n & _ & Hn). rewrite py_mod_quarter.
  assert (E : q * 4 == inject_Z n) by (unfold quarter in Hn; lra).
  rewrite (Qfloor_comp _ _ E), Qfloor_Z. unfold quarter in *. lra.
Qed.

Lemma on_grid_round_up_quarter (q : Q) : on_grid q -> round_up_quarter q == q.
Proof.
  intro G. symmetry. apply py_mod_zero_fixed, truthy_false, on_grid_py_mod, G.
Qed.

(** X4.  For durations that are not negative, the retrieval frequency of
    the returned row is never above the one of the input, and it is the
    smaller of the frequency of the input and the number of whole cycles
    that fit into 8760 h, for one of two cycles: the quarter-hour of a
    short case, or the sum of the three durations, each rounded up to the
    grid.  For three durations on the grid the cycle is their sum, or the
    quarter-hour when the sum is not longer. *)
Theorem check_and_adapt_dsm_frequency (raw : RawRow) (r : Measure) :
  let row := fillna_dict raw in
  let rd := retrieval_duration row in
  let ct := catch_up_time row in
  let ad := activation_duration row in
  0 <= rd -> 0 <= ct -> 0 <= ad ->
  check_and_adapt_dsm raw = Ok r ->
  (retrieval_frequency r <= retrieval_frequency row)%Z /\
  (retrieval_frequency r
   = Z.min (retrieval_frequency row) (Qfloor (hours_per_year / quarter)) \/
   retrieval_frequency r
   = Z.min (retrieval_frequency row)
           (Qfloor (hours_per_year
                    / (round_up_quarter rd + round_up_quarter ct + round_up_quarter ad)))) /\
  (on_grid rd -> on_grid ct -> on_grid ad ->
   retrieval_frequency r
   = Z.min (retrieval_frequency row)
           (Qfloor (hours_per_year
                    / (if Qle_bool (rd + ct + ad) quarter then quarter else rd + ct + ad)))).
Proof.
  intros row rd ct ad Hrd Hct Had Hr.
  pose proof (check_and_adapt_dsm_frequency_cap raw r Hr) as Hcap.
  fold row in Hcap. fold rd ct ad in Hcap. unfold adapted_cycle in Hcap.
  split; [rewrite Hcap; apply Z.le_min_l|]. split.
  - destruct (Qle_bool (rd + ct + ad) quarter); [left | right]; exact Hcap.
  - intros Grd Gct Gad. rewrite Hcap.
    destruct (Qle_bool (rd + ct + ad) quarter); [reflexivity|].
    f_equal. apply Qfloor_comp.
    rewrite (on_grid_round_up_quarter _ Grd), (on_grid_round_up_quarter _ Gct),
      (on_grid_round_up_quarter _ Gad). reflexivity.
Qed.

(** 100000 retrievals of one hour are cut down to 8760. *)
Lemma check_and_adapt_dsm_frequency_witness :
  exists r,
    check_and_adapt_dsm (raw_case 10 1 0 0 100000) = Ok r /\
    retrieval_frequency r = 8760%Z.
Proof.
  destruct (check_and_adapt_dsm (raw_case 10 1 0 0 100000)) as [r|e] eqn:E.
  - exists r. split; [reflexivity|].
    destruct (check_and_adapt_dsm_frequency (raw_case 10 1 0 0 100000) r)
      as (_ & _ & Hgrid); try discriminate; [exact E|].
    rewrite Hgrid.
    + reflexivity.
    + exists 4%Z. split; [lia | reflexivity].
    + exists 0%Z. split; [lia | reflexivity].
    + exists 0%Z. split; [lia | reflexivity].
  - vm_compute in E. discriminate E.
Defined.

(** X5.  A row that meets the invariant of the specification and has a
    positive retrieval duration is a fixed point: [check_and_adapt_dsm]
    returns the same case. *)
Theorem check_and_adapt_dsm_fixes_normalized (m : Measure) :
  normalized m ->
  0 < retrieval_duration m ->
  exists r, check_and_adapt_dsm (raw_of_measure m) = Ok r /\ same_case r m.
Proof.
  intros (Grd & Gct & Gad & Hcycle & Hyear) Hpos. unfold cycle in *.
  unfold check_and_adapt_dsm, adapt_durations.
  cbn [fillna_dict raw_of_measure fillna retrieval_duration catch_up_time
       activation_duration power retrieval_frequency TP name scope maximization
       load_change raw_TP raw_name raw_scope raw_maximization raw_load_change
       raw_power raw_retrieval_duration raw_activation_duration raw_catch_up_time
       raw_retrieval_frequency].
  assert (Hne : ~ retrieval_duration m == 0) by (intro Hz; rewrite Hz in Hpos; discriminate).
  destruct (Qle_bool (retrieval_duration m + catch_up_time m + activation_duration m)
                     quarter) eqn:E.
  - apply Qle_bool_iff in E.
    destruct Grd as (n1 & P1 & E1), Gct as (n2 & P2 & E2), Gad as (n3 & P3 & E3).
    assert (S1 : (0 < n1)%Z).
    { rewrite Zlt_Qlt. change (inject_Z 0) with 0. unfold quarter in E1. lra. }
    assert (S2 : (n1 + n2 + n3 <= 1)%Z).
    { rewrite Zle_Qle, !inject_Z_plus. change (inject_Z 1) with 1.
      unfold quarter in *. lra. }
    assert (n1 = 1%Z) by lia. assert (n2 = 0%Z) by lia. assert (n3 = 0%Z) by lia.
    subst n1 n2 n3. change (inject_Z 1) with 1 in E1. change (inject_Z 0) with 0 in E2, E3.
    unfold py_truediv. change (Qeq_bool quarter 0) with false. cbn [bind].
    assert (G : Qgt_bool ((quarter + 0 + 0) * inject_Z (retrieval_frequency m))
                         hours_per_year = false).
    { apply Qgt_bool_false.
      assert (Hq : quarter + 0 + 0
                   == retrieval_duration m + catch_up_time m + activation_duration m)
        by (rewrite E1, E2, E3; ring).
      rewrite Hq. exact Hyear. }
    rewrite G. eexists. split; [reflexivity|].
    unfold same_case. cbn. repeat split; try reflexivity.
    + rewrite E1. unfold quarter. field.
    + rewrite E1. unfold quarter. lra.
    + rewrite E2. unfold quarter. lra.
  - assert (T : truthy (py_mod (retrieval_duration m) quarter
                        + py_mod (catch_up_time m) quarter
                        + py_mod (activation_duration m) quarter) = false).
    { apply truthy_false.
      rewrite (on_grid_py_mod _ Grd), (on_grid_py_mod _ Gct), (on_grid_py_mod _ Gad).
      reflexivity. }
    rewrite T. unfold py_truediv.
    assert (Z0 : Qeq_bool (retrieval_duration m) 0 = false).
    { destruct (Qeq_bool (retrieval_duration m) 0) eqn:Ez; [|reflexivity].
      apply Qeq_bool_iff in Ez. contradiction. }
    rewrite Z0. cbn [bind].
    assert (G : Qgt_bool ((retrieval_duration m + catch_up_time m + activation_duration m)
                          * inject_Z (retrieval_frequency m)) hours_per_year = false)
      by (apply Qgt_bool_false; exact Hyear).
    rewrite G. eexists. split; [reflexivity|].
    unfold same_case. cbn. repeat split; try reflexivity.
    field. exact Hne.
Qed.

(** The row (0.5 h, 0.25 h, 0.25 h) with ten retrievals a year comes back
    as it is. *)
Lemma check_and_adapt_dsm_fixes_normalized_witness :
  exists r,
    check_and_adapt_dsm
      (raw_of_measure
         (mkMeasure "TP1" "measure" potential max_power load_increase 8 0.5 0.25 0.25 10))
    = Ok r /\
    retrieval_frequency r = 10%Z.
Proof.
  destruct (check_and_adapt_dsm_fixes_normalized
              (mkMeasure "TP1" "measure" potential max_power load_increase 8 0.5 0.25 0.25 10))
    as (r & Hr & Hsame).
  - repeat split; try discriminate.
    + exists 2%Z. split; [lia | reflexivity].
    + exists 1%Z. split; [lia | reflexivity].
    + exists 1%Z. split; [lia | reflexivity].
  - reflexivity.
  - exists r. split; [exact Hr|]. apply Hsame.
Defined.

(** ** block_reduction and blocks_quarter_hour *)

Lemma Qle_bool_comp (a a' b b' : Q) :
  a == a' -> b == b' -> Qle_bool a b = Qle_bool a' b'.
Proof.
  intros Ea Eb.
  destruct (Qle_bool a b) eqn:E1, (Qle_bool a' b') eqn:E2; try reflexivity.
  - apply Qle_bool_iff in E1. rewrite Ea, Eb in E1. apply Qle_bool_iff in E1. congruence.
  - apply Qle_bool_iff in E2. rewrite <- Ea, <- Eb in E2. apply Qle_bool_iff in E2.
    congruence.
Qed.

Lemma loc_slice_comp {A : Type} (first first' last last' : Q) (df : list A) :
  first == first' -> last == last' -> loc_slice first last df = loc_slice first' last' df.
Proof.
  intros Ef El. unfold loc_slice. apply filter_ext. intro ix.
  rewrite (Qle_bool_comp first first' _ _ Ef (Qeq_refl _)).
  rewrite (Qle_bool_comp _ _ last last' (Qeq_refl _) El). reflexivity.
Qed.

Lemma series_sum_scale {A : Type} (f : A -> Q) (c : Q) (l : list A) :
  series_sum (map (fun x => c * f x) l) == c * series_sum (map f l).
Proof.
  unfold series_sum in *.
  induction l as [|x l IH]; cbn [map fold_right]; [ring|]. rewrite IH. ring.
Qed.

(** The reduction is the load change times the reduction of a load change
    of 1, with equal numbers giving equal results. *)
Lemma block_reduction_load_change (t : Z) (column : Column) (df : list PriceEmf)
    (lc : Q) (avg : Q * Q) (rd rd' : Q) :
  rd == rd' ->
  block_reduction t column df lc avg rd == lc * block_reduction t column df 1 avg rd'.
Proof.
  intro Erd. unfold block_reduction.
  assert (El : inject_Z t + rd * 4 - 1 == inject_Z t + rd' * 4 - 1)
    by (rewrite Erd; reflexivity).
  unfold Qgt_bool. rewrite (Qle_bool_comp _ _ _ _ El (Qeq_refl (len df))).
  destruct (Qle_bool (inject_Z t + rd' * 4 - 1) (len df)); cbn [negb]; [|ring].
  rewrite (loc_slice_comp _ _ _ _ df (Qeq_refl (inject_Z t)) El).
  set (rows := loc_slice (inject_Z t) (inject_Z t + rd' * 4 - 1) df).
  assert (S : series_sum (map (fun ix => lc * column_value column (snd ix)) rows)
              == lc * series_sum (map (fun ix => 1 * column_value column (snd ix)) rows)).
  { rewrite <- series_sum_scale. apply series_sum_map_ext. intro ix. ring. }
  rewrite S, Erd. ring.
Qed.

Lemma Forall2_map_same {A B : Type} (R : B -> B -> Prop) (f g : A -> B) (l : list A) :
  (forall x, R (f x) (g x)) -> Forall2 R (map f l) (map g l).
Proof.
  intro H. induction l as [|x l IH]; cbn; constructor; [apply H | exact IH].
Qed.

(** X6.  A load reduction and a load increase of the same power and
    retrieval duration mirror each other: [blocks_quarter_hour] returns
    for both or raises the same exception for both, and at every start of
    the year, the emission reduction and the price reduction of the one
    are those of the other with the opposite sign, the zeros of the
    refused windows included. *)
Theorem load_reduction_mirrors_load_increase (measure_lr measure_li : Measure)
    (df : list PriceEmf) (avg : Q * Q) :
  load_change measure_lr = load_reduction ->
  load_change measure_li = load_increase ->
  power measure_lr == power measure_li ->
  retrieval_duration measure_lr == retrieval_duration measure_li ->
  match blocks_quarter_hour df avg (calc_load_change measure_lr)
                            (retrieval_duration measure_lr),
        blocks_quarter_hour df avg (calc_load_change measure_li)
                            (retrieval_duration measure_li) with
  | Ok rows_lr, Ok rows_li =>
      Forall2 (fun a b => emission_reduction a == - emission_reduction b /\
                          price_reduction a == - price_reduction b)
              rows_lr rows_li
  | Raise e_lr, Raise e_li => e_lr = e_li
  | _, _ => False
  end.
Proof.
  intros Hlr Hli Hp Hrd. unfold blocks_quarter_hour.
  destruct df as [|x0 df0] eqn:Edf; [reflexivity|]. rewrite <- Edf.
  apply Forall2_map_same. intro ix. cbn [emission_reduction price_reduction].
  assert (Hlc : calc_load_change measure_lr == - calc_load_change measure_li).
  { unfold calc_load_change. rewrite Hlr, Hli, Hp. ring. }
  split.
  - rewrite (block_reduction_load_change _ _ _ _ _ _ _ Hrd).
    rewrite (block_reduction_load_change _ _ _ (calc_load_change measure_li) _ _ _
               (Qeq_refl _)).
    rewrite Hlc. ring.
  - rewrite (block_reduction_load_change _ _ _ _ _ _ _ Hrd).
    rewrite (block_reduction_load_change _ _ _ (calc_load_change measure_li) _ _ _
               (Qeq_refl _)).
    rewrite Hlc. ring.
Qed.

(** The pair of the scenario. *)
Lemma load_reduction_mirrors_load_increase_witness :
  exists rows_lr rows_li,
    blocks_quarter_hour scenario_series (30, 60) (calc_load_change scenario_reduction)
                        (retrieval_duration scenario_reduction) = Ok rows_lr /\
    blocks_quarter_hour scenario_series (30, 60) (calc_load_change scenario_measure)
                        (retrieval_duration scenario_measure) = Ok rows_li /\
    Forall2 (fun a b => emission_reduction a == - emission_reduction b /\
                        price_reduction a == - price_reduction b)
            rows_lr rows_li.
Proof.
  eexists. eexists. split; [reflexivity|]. split; [reflexivity|].
  exact (load_reduction_mirrors_load_increase scenario_reduction scenario_measure
           scenario_series (30, 60) eq_refl eq_refl (Qeq_refl _) (Qeq_refl _)).
Defined.

Lemma series_sum_constant (f : nat -> Q) (c : Q) (t w : nat) :
  (forall i, (t <= i < t + w)%nat -> f i == c) ->
  series_sum (map f (seq t w)) == c * inject_Z (Z.of_nat w).
Proof.
  revert t. induction w as [|w IH]; intros t H.
  - unfold series_sum. cbn [seq map fold_right Z.of_nat]. change (inject_Z 0) with 0. ring.
  - cbn [seq map]. unfold series_sum. cbn [fold_right].
    fold (series_sum (map f (seq (S t) w))).
    rewrite IH by (intros i Hi; apply H; lia).
    rewrite (H t) by lia.
    rewrite Nat2Z.inj_succ. unfold Z.succ. rewrite inject_Z_plus.
    change (inject_Z 1) with 1. ring.
Qed.

(** X7.  Where the series stays at its average over the whole window, a
    retrieval gains nothing: the reduction is 0 for any load change. *)
Theorem block_reduction_flat_window (column : Column) (df : list PriceEmf)
    (d : PriceEmf) (lc : Q) (avg : Q * Q) (rd : Q) (t w : nat) :
  rd == inject_Z (Z.of_nat w) * quarter ->
  (t + w <= List.length df)%nat ->
  (forall i, (t <= i < t + w)%nat ->
             column_value column (nth i df d) == baseline column avg) ->
  block_reduction (Z.of_nat t) column df lc avg rd == 0.
Proof.
  intros Hrd Hfit Hflat.
  rewrite (block_reduction_window column df d lc avg rd t w Hrd Hfit).
  unfold window_reduction.
  rewrite (series_sum_constant _ (lc * baseline column avg)).
  - ring.
  - intros i Hi. cbv beta. rewrite (Hflat i Hi). reflexivity.
Qed.

(** Two quarter-hours at the average price 30 in a series of three. *)
Lemma block_reduction_flat_window_witness :
  block_reduction 0 col_price
    [mkPriceEmf 30 1; mkPriceEmf 30 2; mkPriceEmf 50 3] 7 (30, 60) 0.5 == 0.
Proof.
  apply (block_reduction_flat_window col_price
           [mkPriceEmf 30 1; mkPriceEmf 30 2; mkPriceEmf 50 3]
           (mkPriceEmf 0 0) 7 (30, 60) 0.5 0 2).
  - reflexivity.
  - cbn. lia.
  - intros i Hi.
    destruct i as [|[|i]]; [reflexivity | reflexivity | lia].
Defined.

(** The retrieval of half an hour that starts at the last record of a
    series of two. *)
Lemma block_reduction_overrun_by_one_witness :
  block_reduction (Z.of_nat 1) col_price [mkPriceEmf 10 20; mkPriceEmf 50 100]
                  1 (30, 60) 0.5
  == - series_sum
         (map (fun i => 1 * column_value col_price
                              (nth i [mkPriceEmf 10 20; mkPriceEmf 50 100]
                                   (mkPriceEmf 0 0)))
              (seq 1 (2 - 1)))
     + 1 * baseline col_price (30, 60) * inject_Z (Z.of_nat 2).
Proof.
  apply (block_reduction_overrun_by_one col_price
           [mkPriceEmf 10 20; mkPriceEmf 50 100] (mkPriceEmf 0 0) 1 (30, 60) 0.5 1 2).
  - reflexivity.
  - reflexivity.
  - lia.
Defined.

(** ** max_in_block and calc_blocks *)

Lemma py_int_zero (q : Q) : -1 < q -> q < 1 -> py_int q = 0%Z.
Proof.
  destruct q as [n d]. unfold py_int, Qlt. cbn [Qnum Qden]. intros Hlo Hhi.
  destruct (Z.le_gt_cases 0 n) as [Hn | Hn].
  - apply Z.quot_small. lia.
  - rewrite <- (Z.opp_involutive n), Z.quot_opp_l by lia.
    rewrite Z.quot_small by lia. reflexivity.
Qed.

Lemma py_int_negative (q : Q) : q <= -1 -> (py_int q < 0)%Z.
Proof.
  destruct q as [n d]. unfold py_int, Qle. cbn [Qnum Qden]. intro H.
  rewrite <- (Z.opp_involutive n), Z.quot_opp_l by lia.
  assert (1 <= - n ÷ Z.pos d)%Z; [|lia].
  apply Z.quot_le_lower_bound; lia.
Qed.

Lemma py_int_positive (q : Q) : 1 <= q -> (1 <= py_int q)%Z.
Proof.
  destruct q as [n d]. unfold py_int, Qle. cbn [Qnum Qden]. intro H.
  apply Z.quot_le_lower_bound; lia.
Qed.

Lemma py_range_backwards (N : nat) (step : Z) :
  (step < 0)%Z -> py_range 0 (Z.of_nat N) step = Ok [].
Proof.
  intro H. unfold py_range.
  assert (E0 : (step =? 0)%Z = false) by (apply Z.eqb_neq; lia).
  assert (E1 : (0 <? step)%Z = false) by (apply Z.ltb_ge; lia).
  rewrite E0, E1.
  assert (Hq : ((0 - Z.of_nat N - step - 1) / - step < 1)%Z)
    by (apply Z.div_lt_upper_bound; lia).
  replace (Z.to_nat ((0 - Z.of_nat N - step - 1) / - step)) with 0%nat by lia.
  reflexivity.
Qed.

(** X8.  [max_in_block] on a cycle that is no full quarter-hour: with a
    length between -0.25 h and 0.25 h the block length is 0 and the loop
    over the starts raises [ValueError], whatever the frame; with a length
    of -0.25 h or below the loop has no start and no block is returned. *)
Theorem max_in_block_short_cycle (df : list ReductionRow) (length : Q) :
  (- quarter < length -> length < quarter -> max_in_block df length = Raise ValueError) /\
  (length <= - quarter -> max_in_block df length = Ok []).
Proof.
  unfold max_in_block, quarter. split.
  - intros Hlo Hhi. rewrite py_int_zero by lra. reflexivity.
  - intro H. rewrite py_range_backwards by (apply py_int_negative; lra). reflexivity.
Qed.

(** The number of starts 0, L, 2L, ... below [N]. *)
Lemma block_count_formula (N L n : nat) :
  (1 <= L)%nat ->
  (N <= n * L)%nat ->
  (forall j, (j < n)%nat -> (j * L < N)%nat) ->
  n = ((N + L - 1) / L)%nat.
Proof.
  intros HL Hcover Hstart. destruct n as [|n].
  - assert (N = 0%nat) by lia. replace (N + L - 1)%nat with (L - 1)%nat by lia.
    symmetry. apply Nat.div_small. lia.
  - specialize (Hstart n (Nat.lt_succ_diag_r n)).
    apply (Nat.div_unique _ _ _ (N + L - 1 - L * S n)); nia.
Qed.

(** X9.  With a block length of [L >= 1] quarter-hours, [max_in_block]
    returns as many blocks as the length of the frame divided by [L],
    rounded up; an empty frame gives no block. *)
Theorem max_in_block_count (df : list ReductionRow) (length : Q) (L : nat) :
  py_int (length * 4) = Z.of_nat L ->
  (1 <= L)%nat ->
  exists blocks,
    max_in_block df length = Ok blocks /\
    List.length blocks = ((List.length df + L - 1) / L)%nat.
Proof.
  intros Hint HL.
  destruct (max_in_block_segments df length L Hint HL)
    as (blocks & Hb & Hcover & Hstart & _).
  exists blocks. split; [exact Hb|].
  apply block_count_formula; assumption.
Qed.

(** Seven rows in blocks of three make three blocks. *)
Lemma max_in_block_count_witness :
  exists blocks,
    max_in_block (repeat (mkReductionRow 0 0 0 0) 7) 0.75 = Ok blocks /\
    List.length blocks = 3%nat.
Proof.
  apply (max_in_block_count (repeat (mkReductionRow 0 0 0 0) 7) 0.75 3).
  - reflexivity.
  - lia.
Defined.

Lemma max_in_block_assoc_le (df : list ReductionRow) (length : Q) (blocks : list Block) :
  max_in_block df length = Ok blocks ->
  Forall (fun b => assocEmission b <= maxEmission b /\ assocCost b <= maxCost b) blocks.
Proof.
  intro Hb.
  destruct (Z.lt_trichotomy (py_int (length * 4)) 0) as [Hneg | [Hz | Hpos]].
  - unfold max_in_block in Hb. rewrite py_range_backwards in Hb by exact Hneg.
    cbn in Hb. inversion Hb. constructor.
  - unfold max_in_block in Hb. rewrite Hz in Hb. discriminate Hb.
  - destruct (max_in_block_segments df length (Z.to_nat (py_int (length * 4))))
      as (blocks' & Hb' & _ & _ & Hseg); try lia.
    rewrite Hb in Hb'. inversion Hb'; subst blocks'; clear Hb'.
    apply Forall_forall. intros b Hin. apply In_nth_error in Hin.
    destruct Hin as [j Hj].
    destruct (Hseg j b Hj) as [(i0 & r0 & M0 & Eme & Eac) (i1 & r1 & M1 & Emc & Eae)].
    destruct M0 as (N0 & Max0 & _). destruct M1 as (N1 & Max1 & _).
    split.
    + rewrite Eae, Eme. apply Max0. apply (nth_error_In _ _ N1).
    + rewrite Eac, Emc. apply Max1. apply (nth_error_In _ _ N0).
Qed.

(** X10.  In every block that [calc_blocks] returns for a measure, an
    associated value is at most the maximum of the same quantity:
    'ass. emission' is at most 'max. emission' and 'ass. cost' at most
    'max. cost'. *)
Theorem calc_blocks_associated_below_max (float_round : Q -> Q) (measure : Measure)
    (df : list PriceEmf) (avg : Q * Q) (blocks : list Block) :
  calc_blocks float_round measure df avg = Ok blocks ->
  Forall (fun b => assocEmission b <= maxEmission b /\ assocCost b <= maxCost b) blocks.
Proof.
  unfold calc_blocks.
  destruct (blocks_quarter_hour _ _ _ _) as [rows|e]; cbn [bind]; [|discriminate].
  intro Hb. apply (max_in_block_assoc_le _ _ _ Hb).
Qed.

(** The measure of the scenario on the series of the scenario. *)
Lemma calc_blocks_associated_below_max_witness :
  exists blocks,
    calc_blocks no_rounding scenario_measure scenario_series (30, 60) = Ok blocks /\
    Forall (fun b => assocEmission b <= maxEmission b /\ assocCost b <= maxCost b) blocks.
Proof.
  destruct (calc_blocks no_rounding scenario_measure scenario_series (30, 60))
    as [blocks|e] eqn:E.
  - exists blocks. split; [reflexivity|].
    apply (calc_blocks_associated_below_max no_rounding scenario_measure scenario_series
             (30, 60)).
    exact E.
  - vm_compute in E. discriminate E.
Defined.

Lemma check_and_adapt_dsm_retrieval_not_zero (raw : RawRow) (r : Measure) :
  check_and_adapt_dsm raw = Ok r -> ~ retrieval_duration r == 0.
Proof.
  unfold check_and_adapt_dsm.
  destruct (adapt_durations _ _ _) as [[rd' ct'] ad'].
  unfold py_truediv. destruct (Qeq_bool rd' 0) eqn:E; cbn [bind]; [discriminate|].
  intro H. inversion H; subst r; clear H. cbn [retrieval_duration].
  intro Hz. apply Qeq_bool_iff in Hz. congruence.
Qed.

Lemma on_grid_not_zero (q : Q) : on_grid q -> ~ q == 0 -> quarter <= q.
Proof.
  intros (n & Hn & E) Hne.
  assert (H : (1 <= n)%Z).
  { destruct (Z.eq_dec n 0) as [Hz | Hz]; [|lia].
    exfalso. apply Hne. rewrite E, Hz. reflexivity. }
  rewrite Zle_Qle in H. change (inject_Z 1) with 1 in H. unfold quarter in *. lra.
Qed.

Section BlocksAfterCheck.

(** The rounding of a float addition does not cross a float: a sum of a
    quarter of an hour at least is not rounded below 0.25. *)
Variable float_round : Q -> Q.
Hypothesis float_round_quarter : forall q, quarter <= q -> quarter <= float_round q.

(** X11.  A row that [check_and_adapt_dsm] returns for durations that are
    not negative has a cycle of a quarter of an hour at least, so that
    [calc_blocks] raises nothing on it for a series that is not empty: it
    returns as many blocks as the length of the series divided by the
    block length, rounded up. *)
Theorem calc_blocks_after_check (raw : RawRow) (r : Measure)
    (df : list PriceEmf) (avg : Q * Q) :
  let row := fillna_dict raw in
  0 <= retrieval_duration row -> 0 <= catch_up_time row -> 0 <= activation_duration row ->
  check_and_adapt_dsm raw = Ok r ->
  df <> [] ->
  let L := Z.to_nat (py_int (calc_rc_length float_round r * 4)) in
  (1 <= L)%nat /\
  exists blocks,
    calc_blocks float_round r df avg = Ok blocks /\
    List.length blocks = ((List.length df + L - 1) / L)%nat.
Proof.
  intros row Hrd Hct Had Hr Hdf L.
  destruct (check_and_adapt_dsm_grid raw r Hrd Hct Had Hr) as (Grd & Gct & _).
  pose proof (on_grid_not_zero _ Grd (check_and_adapt_dsm_retrieval_not_zero raw r Hr))
    as Hq.
  assert (Hc : 0 <= catch_up_time r).
  { destruct Gct as (n & Hn & E). rewrite Zle_Qle in Hn.
    change (inject_Z 0) with 0 in Hn. unfold quarter in E. lra. }
  assert (Ha : activation_duration r = activation_duration row).
  { revert Hr. unfold check_and_adapt_dsm. fold row.
    destruct (adapt_durations _ _ _) as [[rd' ct'] ad'].
    unfold py_truediv. destruct (Qeq_bool rd' 0); cbn [bind]; [discriminate|].
    intro H. inversion H. reflexivity. }
  assert (Hlen : quarter <= calc_rc_length float_round r).
  { unfold calc_rc_length, float_add. apply float_round_quarter.
    assert (H1 : quarter <= float_round (retrieval_duration r + catch_up_time r))
      by (apply float_round_quarter; lra).
    rewrite Ha. lra. }
  assert (Hint : (1 <= py_int (calc_rc_length float_round r * 4))%Z).
  { apply py_int_positive. unfold quarter in Hlen. lra. }
  assert (HL : (1 <= L)%nat) by (unfold L; lia).
  split; [exact HL|].
  destruct (calc_blocks_count float_round r df avg L) as (blocks & Hb & Hcover & Hstart);
    [exact Hdf | unfold L; lia | exact HL |].
  exists blocks. split; [exact Hb|].
  apply block_count_formula; assumption.
Qed.

End BlocksAfterCheck.

(** The row of the scenario (0.1, 0.05, 0.05) on the series of the
    scenario: a block length of one quarter-hour and eight blocks. *)
Lemma calc_blocks_after_check_witness :
  exists r blocks,
    check_and_adapt_dsm (raw_case 10 0.1 0.05 0.05 3) = Ok r /\
    calc_blocks no_rounding r scenario_series (30, 60) = Ok blocks /\
    List.length blocks = 8%nat.
Proof.
  destruct (check_and_adapt_dsm (raw_case 10 0.1 0.05 0.05 3)) as [r|e] eqn:E.
  - destruct (calc_blocks_after_check no_rounding (fun q H => H)
                (raw_case 10 0.1 0.05 0.05 3) r scenario_series (30, 60))
      as (_ & blocks & Hb & Hlen);
      try discriminate; [exact E|].
    exists r, blocks. split; [reflexivity|]. split; [exact Hb|].
    rewrite Hlen. vm_compute in E. inversion E. reflexivity.
  - vm_compute in E. discriminate E.
Defined.

(** X12.  For durations that are not negative, the returned row has a
    retrieval duration and a catch-up time on the quarter-hour grid, a
    retrieval duration of a quarter of an hour at least, and a frequency
    with which the adapted cycle fits into the 8760 h of a year. *)
Theorem check_and_adapt_dsm_invariant (raw : RawRow) (r : Measure) :
  let row := fillna_dict raw in
  0 <= retrieval_duration row -> 0 <= catch_up_time row -> 0 <= activation_duration row ->
  check_and_adapt_dsm raw = Ok r ->
  on_grid (retrieval_duration r) /\
  quarter <= retrieval_duration r /\
  on_grid (catch_up_time r) /\
  adapted_cycle (retrieval_duration row) (catch_up_time row) (activation_duration row)
  * inject_Z (retrieval_frequency r) <= hours_per_year.
Proof.
  intros row Hrd Hct Had Hr.
  destruct (check_and_adapt_dsm_grid raw r Hrd Hct Had Hr) as (Grd & Gct & _).
  split; [exact Grd|].
  split; [apply (on_grid_not_zero _ Grd (check_and_adapt_dsm_retrieval_not_zero raw r Hr))|].
  split; [exact Gct|].
  revert Hr. unfold check_and_adapt_dsm. fold row.
  pose proof (adapt_durations_cycle (retrieval_duration row) (catch_up_time row)
                                    (activation_duration row)) as Hc.
  pose proof (adapted_cycle_positive (retrieval_duration row) (catch_up_time row)
                                     (activation_duration row)) as Hp.
  destruct (adapt_durations _ _ _) as [[rd' ct'] ad']. cbn [fst snd] in Hc.
  unfold py_truediv. destruct (Qeq_bool rd' 0); cbn [bind]; [discriminate|].
  intro H. inversion H; subst r; clear H. cbn [retrieval_frequency].
  rewrite <- Hc. apply frequency_cap_fits. rewrite Hc. exact Hp.
Qed.

(** The scenario (0.1, 0.05, 0.05) with 100000 retrievals a year. *)
Lemma check_and_adapt_dsm_invariant_witness :
  exists r,
    check_and_adapt_dsm (raw_case 10 0.1 0.05 0.05 100000) = Ok r /\
    on_grid (retrieval_duration r) /\ quarter <= retrieval_duration r.
Proof.
  destruct (check_and_adapt_dsm (raw_case 10 0.1 0.05 0.05 100000)) as [r|e] eqn:E.
  - exists r. split; [reflexivity|].
    destruct (check_and_adapt_dsm_invariant (raw_case 10 0.1 0.05 0.05 100000) r)
      as (G1 & G2 & _); try discriminate; [exact E|].
    split; assumption.
  - vm_compute in E. discriminate E.
Defined.

(** ** calc_annual_potential *)

Lemma series_sum_app (l1 l2 : list Q) :
  series_sum (l1 ++ l2) == series_sum l1 + series_sum l2.
Proof.
  unfold series_sum. induction l1 as [|x l1 IH]; cbn [app fold_right]; [ring|].
  rewrite IH. ring.
Qed.

Lemma series_sum_permutation (l1 l2 : list Q) :
  Permutation l1 l2 -> series_sum l1 == series_sum l2.
Proof.
  unfold series_sum. intro H.
  induction H as [|x l1 l2 _ IH|x y l|l1 l2 l3 _ IH1 _ IH2]; cbn [fold_right].
  - reflexivity.
  - rewrite IH. reflexivity.
  - ring.
  - rewrite IH1. exact IH2.
Qed.

Lemma series_sum_not_negative (l : list Q) :
  Forall (fun x => 0 <= x) l -> 0 <= series_sum l.
Proof.
  unfold series_sum. induction 1 as [|x l Hx _ IH]; cbn [fold_right]; [apply Qle_refl|].
  lra.
Qed.

Lemma series_sum_map_le {A : Type} (f g : A -> Q) (l : list A) :
  Forall (fun x => f x <= g x) l -> series_sum (map f l) <= series_sum (map g l).
Proof.
  unfold series_sum. induction 1 as [|x l Hx _ IH]; cbn [map fold_right]; [apply Qle_refl|].
  lra.
Qed.

Lemma firstn_le_split {A : Type} (k k' : nat) (l : list A) :
  (k <= k')%nat -> firstn k' l = firstn k l ++ firstn (k' - k) (skipn k l).
Proof.
  revert k' l. induction k as [|k IH]; intros k' l H.
  - cbn [firstn skipn app]. f_equal. lia.
  - destruct k' as [|k']; [lia|].
    destruct l as [|x l]; [cbn [firstn skipn app]; rewrite firstn_nil; reflexivity|].
    cbn [firstn skipn app Nat.sub]. f_equal. apply IH. lia.
Qed.

Lemma above_zero_sum_not_negative (l : list (Q * Q)) :
  0 <= series_sum (map fst (filter above_zero l)).
Proof.
  apply series_sum_not_negative. apply Forall_forall. intros x Hx.
  apply in_map_iff in Hx. destruct Hx as (r & E & Hr). subst x.
  apply filter_In in Hr. destruct Hr as [_ Hr]. apply Qgt_bool_true in Hr.
  apply Qlt_le_weak. exact Hr.
Qed.

Section AnySort.

Variable sort_values : list (Q * Q) -> list (Q * Q).

(** X13.  Whatever [sort_values] returns, a maximum that was asked for is
    a number that is not negative, and with a retrieval frequency of 0 the
    two cells of the objective are the number 0, not the string 'NaN'. *)
Theorem calc_annual_potential_not_negative (measure : MeasureKey) (blocks : list Block)
    (max_cost : bool) :
  (exists q,
     res_max_emission (calc_annual_potential sort_values measure blocks true max_cost)
     = Num q /\ 0 <= q) /\
  res_max_emission
    (calc_annual_potential sort_values (with_frequency measure 0) blocks true max_cost)
  = Num 0 /\
  res_ass_cost
    (calc_annual_potential sort_values (with_frequency measure 0) blocks true max_cost)
  = Num 0.
Proof.
  split.
  - eexists. split; [reflexivity|]. cbn [fst sum_columns]. unfold top_k.
    apply above_zero_sum_not_negative.
  - split; reflexivity.
Qed.

(** X14.  With the blocks fixed, the maximum grows with the retrieval
    frequency: for frequencies [0 <= k <= k'] the emission maximum for [k]
    is at most the one for [k']. *)
Theorem calc_annual_potential_monotone (measure : MeasureKey) (blocks : list Block)
    (max_cost : bool) (k k' : Z) :
  (0 <= k <= k')%Z ->
  exists q q',
    res_max_emission
      (calc_annual_potential sort_values (with_frequency measure k) blocks true max_cost)
    = Num q /\
    res_max_emission
      (calc_annual_potential sort_values (with_frequency measure k') blocks true max_cost)
    = Num q' /\
    q <= q'.
Proof.
  intro Hk. eexists. eexists. split; [reflexivity|]. split; [reflexivity|].
  cbn [fst sum_columns key_retrieval_frequency with_frequency]. unfold top_k, head.
  assert (E : (0 <=? k)%Z = true) by (apply Z.leb_le; lia).
  assert (E' : (0 <=? k')%Z = true) by (apply Z.leb_le; lia).
  rewrite E, E'.
  rewrite (firstn_le_split (Z.to_nat k) (Z.to_nat k')) by lia.
  rewrite filter_app, map_app, series_sum_app.
  match goal with
  | |- _ <= _ + series_sum (map fst (filter _ ?l)) =>
      pose proof (above_zero_sum_not_negative l) as H
  end.
  unfold above_zero in H. lra.
Qed.

End AnySort.

(** Two retrievals a year against three, on the blocks of the scenario. *)
Lemma calc_annual_potential_monotone_witness :
  exists q q',
    res_max_emission
      (calc_annual_potential insertion_sort_desc (with_frequency scenario_key 2)
                             scenario_blocks true false) = Num q /\
    res_max_emission
      (calc_annual_potential insertion_sort_desc (with_frequency scenario_key 3)
                             scenario_blocks true false) = Num q' /\
    q <= q'.
Proof.
  apply (calc_annual_potential_monotone insertion_sort_desc scenario_key scenario_blocks
                                        false 2 3).
  lia.
Defined.

Lemma top_sum_cons (x : Q * Q) (l : list (Q * Q)) (k : nat) :
  Forall (desc x) l ->
  series_sum (map fst (filter above_zero (firstn k l)))
  <= series_sum (map fst (filter above_zero (firstn k (x :: l)))).
Proof.
  intro Hx. destruct k as [|k]; [apply Qle_refl|].
  rewrite (firstn_le_split k (S k) l) by lia.
  replace (S k - k)%nat with 1%nat by lia.
  change (firstn (S k) (x :: l)) with ([x] ++ firstn k l).
  rewrite !filter_app, !map_app, !series_sum_app.
  assert (Hnext : series_sum (map fst (filter above_zero (firstn 1 (skipn k l))))
                  <= series_sum (map fst (filter above_zero [x]))).
  { destruct (skipn k l) as [|y rest] eqn:E.
    - cbn [firstn].
      change (series_sum (map fst (filter above_zero (@nil (Q * Q))))) with 0.
      apply above_zero_sum_not_negative.
    - assert (Hy : fst y <= fst x).
      { rewrite Forall_forall in Hx. apply Hx.
        rewrite <- (firstn_skipn k l), E. apply in_or_app. right. left. reflexivity. }
      cbn [firstn filter]. unfold above_zero.
      destruct (Qgt_bool (fst y) 0) eqn:Ey.
      + apply Qgt_bool_true in Ey.
        assert (Ex : Qgt_bool (fst x) 0 = true) by (apply Qgt_bool_true; lra).
        rewrite Ex. unfold series_sum. cbn [map fold_right]. lra.
      + destruct (Qgt_bool (fst x) 0) eqn:Ex.
        * apply Qgt_bool_true in Ex. unfold series_sum. cbn [map fold_right]. lra.
        * apply Qle_refl. }
  lra.
Qed.

(** No choice of at most [k] rows of a frame sums to more than the rows
    above 0 among the first [k] rows of the frame in descending order. *)
Lemma top_sum_optimal (l : list (Q * Q)) :
  StronglySorted desc l ->
  forall (k : nat) (chosen rest : list (Q * Q)),
    Permutation (chosen ++ rest) l ->
    (List.length chosen <= k)%nat ->
    series_sum (map fst chosen)
    <= series_sum (map fst (filter above_zero (firstn k l))).
Proof.
  induction 1 as [|x l Hs IH Hx]; intros k chosen rest Hperm Hlen.
  - apply Permutation_sym, Permutation_nil in Hperm. apply app_eq_nil in Hperm.
    destruct Hperm as [E _]. subst chosen. rewrite firstn_nil. apply Qle_refl.
  - assert (Hin : In x (chosen ++ rest)).
    { apply (Permutation_in x (Permutation_sym Hperm)). left. reflexivity. }
    apply in_app_or in Hin. destruct Hin as [Hin | Hin].
    + apply in_split in Hin. destruct Hin as (c1 & c2 & E). subst chosen.
      rewrite <- app_assoc in Hperm. cbn [app] in Hperm.
      apply Permutation_sym, Permutation_cons_app_inv, Permutation_sym in Hperm.
      rewrite app_assoc in Hperm.
      rewrite length_app in Hlen. cbn [List.length] in Hlen.
      destruct k as [|k]; [lia|].
      specialize (IH k (c1 ++ c2) rest Hperm).
      rewrite length_app in IH. specialize (IH ltac:(lia)).
      assert (Hsum : series_sum (map fst (c1 ++ x :: c2))
                     == fst x + series_sum (map fst (c1 ++ c2))).
      { rewrite !map_app, !series_sum_app. unfold series_sum. cbn [map fold_right]. ring. }
      rewrite Hsum. cbn [firstn filter]. unfold above_zero at 1.
      destruct (Qgt_bool (fst x) 0) eqn:Ex.
      * unfold series_sum at 2. cbn [map fold_right].
        fold (series_sum (map fst (filter above_zero (firstn k l)))). lra.
      * apply Qgt_bool_false in Ex. lra.
    + apply in_split in Hin. destruct Hin as (r1 & r2 & E). subst rest.
      rewrite app_assoc in Hperm.
      apply Permutation_sym, Permutation_cons_app_inv, Permutation_sym in Hperm.
      rewrite <- app_assoc in Hperm.
      eapply Qle_trans; [apply (IH k chosen (r1 ++ r2) Hperm Hlen)|].
      apply top_sum_cons. exact Hx.
Qed.

Section Optimum.

Variable sort_values : list (Q * Q) -> list (Q * Q).
Hypothesis sort_values_permutation : forall df, Permutation (sort_values df) df.
Hypothesis sort_values_sorted : forall df, StronglySorted desc (sort_values df).

Lemma top_k_optimal (k : Z) (df chosen : list (Q * Q)) :
  (0 <= k)%Z ->
  at_most_k_of k df chosen ->
  series_sum (map fst chosen) <= series_sum (map fst (top_k sort_values k df)).
Proof.
  intros Hk (Hlen & rest & Hperm). unfold top_k, head.
  assert (E : (0 <=? k)%Z = true) by (apply Z.leb_le; exact Hk). rewrite E.
  apply (top_sum_optimal _ (sort_values_sorted df) (Z.to_nat k) chosen rest).
  - rewrite Hperm. apply Permutation_sym, sort_values_permutation.
  - lia.
Qed.

(** X15.  The emission maximum is the best that at most [k] blocks can
    give: whichever blocks are chosen, at most [k] of them, the sum of
    their 'max. emission' is at most the reported maximum. *)
Theorem calc_annual_potential_optimal (measure : MeasureKey) (blocks : list Block)
    (max_cost : bool) (chosen : list Block) (q : Q) :
  (0 <= key_retrieval_frequency measure)%Z ->
  at_most_k_of (key_retrieval_frequency measure) (emission_frame blocks)
               (emission_frame chosen) ->
  res_max_emission (calc_annual_potential sort_values measure blocks true max_cost)
  = Num q ->
  series_sum (map maxEmission chosen) <= q.
Proof.
  intros Hk Hchosen Hq. cbn in Hq. inversion Hq; subst q; clear Hq.
  pose proof (top_k_optimal _ _ _ Hk Hchosen) as H.
  unfold emission_frame at 1 in H. rewrite map_map in H. cbn [fst] in H. exact H.
Qed.

End Optimum.

Section TwoObjectives.

Variable float_round : Q -> Q.
Variable sort_values : list (Q * Q) -> list (Q * Q).
Hypothesis sort_values_permutation : forall df, Permutation (sort_values df) df.
Hypothesis sort_values_sorted : forall df, StronglySorted desc (sort_values df).

(** The rows one objective selects, valued by the other objective, cannot
    beat what the other objective selects for itself. *)
Lemma associated_sum_below_optimum (k : Z) (blocks : list Block)
    (own other : Block -> Q * Q) :
  (0 <= k)%Z ->
  Forall (fun b => snd (other b) <= fst (own b)) blocks ->
  series_sum (map snd (top_k sort_values k (map other blocks)))
  <= series_sum (map fst (top_k sort_values k (map own blocks))).
Proof.
  intros Hk Hle.
  destruct (top_k_is_top_k sort_values sort_values_permutation sort_values_sorted
                           k (map other blocks) Hk)
    as (rest & Hperm & _ & Hlen & _).
  apply Permutation_map_inv in Hperm. destruct Hperm as (bl & Ebl & Hbl).
  symmetry in Ebl. apply map_eq_app in Ebl.
  destruct Ebl as (bs & br & E & Es & Er). subst bl.
  rewrite <- Es in *. rewrite length_map in Hlen.
  eapply Qle_trans.
  - rewrite map_map. apply (series_sum_map_le (fun b => snd (other b))
                                              (fun b => fst (own b))).
    apply Forall_forall. intros b Hb. rewrite Forall_forall in Hle. apply Hle.
    apply (Permutation_in b (Permutation_sym Hbl)). apply in_or_app. left. exact Hb.
  - rewrite <- (map_map own fst).
    apply (top_k_optimal sort_values sort_values_permutation sort_values_sorted).
    + exact Hk.
    + split; [rewrite length_map; exact Hlen|].
      exists (map own br). rewrite <- map_app.
      apply Permutation_map, Permutation_sym. exact Hbl.
Qed.

(** X16.  For one measure with both objectives asked for, the emission
    saving that comes with the cost optimum is at most the emission
    maximum, and the cost saving that comes with the emission optimum is at
    most the cost maximum. *)
Theorem calc_measure_individual_objectives (measure : Measure) (df : list PriceEmf)
    (avg : Q * Q) (result : AnnualResult) :
  (0 <= retrieval_frequency measure)%Z ->
  calc_measure_individual float_round sort_values measure df avg true true = Ok result ->
  exists max_e ass_c max_c ass_e,
    res_max_emission result = Num max_e /\ res_ass_cost result = Num ass_c /\
    res_max_cost result = Num max_c /\ res_ass_emission result = Num ass_e /\
    ass_e <= max_e /\ ass_c <= max_c.
Proof.
  intros Hk. unfold calc_measure_individual.
  destruct (calc_blocks float_round measure df avg) as [blocks|e] eqn:Eb; cbn [bind];
    [|discriminate].
  intro H. inversion H; subst result; clear H.
  unfold calc_blocks in Eb.
  destruct (blocks_quarter_hour _ _ _ _) as [rows|e]; cbn [bind] in Eb; [|discriminate].
  apply max_in_block_assoc_le in Eb.
  do 4 eexists. repeat (split; [reflexivity|]).
  cbn [fst snd sum_columns measure_key key_retrieval_frequency]. split.
  - apply (associated_sum_below_optimum _ blocks
             (fun b => (maxEmission b, assocCost b))
             (fun b => (maxCost b, assocEmission b)) Hk).
    eapply Forall_impl; [|exact Eb]. intros b [H1 _]. exact H1.
  - apply (associated_sum_below_optimum _ blocks
             (fun b => (maxCost b, assocEmission b))
             (fun b => (maxEmission b, assocCost b)) Hk).
    eapply Forall_impl; [|exact Eb]. intros b [_ H2]. exact H2.
Qed.

End TwoObjectives.

Section TwoSorts.

Variables sort_values sort_values' : list (Q * Q) -> list (Q * Q).
Hypothesis sort_values_permutation : forall df, Permutation (sort_values df) df.
Hypothesis sort_values_sorted : forall df, StronglySorted desc (sort_values df).
Hypothesis sort_values_permutation' : forall df, Permutation (sort_values' df) df.
Hypothesis sort_values_sorted' : forall df, StronglySorted desc (sort_values' df).

Lemma top_k_sum_below (k : Z) (df : list (Q * Q)) :
  (0 <= k)%Z ->
  series_sum (map fst (top_k sort_values k df))
  <= series_sum (map fst (top_k sort_values' k df)).
Proof.
  intro Hk.
  apply (top_k_optimal sort_values' sort_values_permutation' sort_values_sorted' _ _ _ Hk).
  destruct (top_k_is_top_k sort_values sort_values_permutation sort_values_sorted k df Hk)
    as (rest & Hperm & _ & Hlen & _).
  split; [exact Hlen | exists rest; exact Hperm].
Qed.

End TwoSorts.

(** X17.  The two maxima do not depend on how [sort_values] orders blocks
    of equal key: two sorting functions that both return the rows in
    descending order give the same emission maximum and the same cost
    maximum. *)
Theorem calc_annual_potential_any_sort
    (sort_values sort_values' : list (Q * Q) -> list (Q * Q))
    (measure : MeasureKey) (blocks : list Block) :
  (forall df, Permutation (sort_values df) df) ->
  (forall df, StronglySorted desc (sort_values df)) ->
  (forall df, Permutation (sort_values' df) df) ->
  (forall df, StronglySorted desc (sort_values' df)) ->
  (0 <= key_retrieval_frequency measure)%Z ->
  exists e e' c c',
    res_max_emission (calc_annual_potential sort_values measure blocks true true)
    = Num e /\
    res_max_emission (calc_annual_potential sort_values' measure blocks true true)
    = Num e' /\
    res_max_cost (calc_annual_potential sort_values measure blocks true true) = Num c /\
    res_max_cost (calc_annual_potential sort_values' measure blocks true true) = Num c' /\
    e == e' /\ c == c'.
Proof.
  intros P S P' S' Hk. do 4 eexists. repeat (split; [reflexivity|]).
  cbn [fst sum_columns]. split; apply Qle_antisym;
    first [ apply (top_k_sum_below sort_values sort_values' P S P' S' _ _ Hk)
          | apply (top_k_sum_below sort_values' sort_values P' S' P S _ _ Hk) ].
Qed.

(** The two sorting functions of this file on the blocks of the
    scenario. *)
Lemma calc_annual_potential_any_sort_witness :
  exists e e',
    res_max_emission (calc_annual_potential insertion_sort_desc scenario_key
                                            scenario_blocks true true) = Num e /\
    res_max_emission (calc_annual_potential reversed_sort_desc scenario_key
                                            scenario_blocks true true) = Num e' /\
    e == e'.
Proof.
  destruct (calc_annual_potential_any_sort insertion_sort_desc reversed_sort_desc
              scenario_key scenario_blocks
              insertion_sort_desc_permutation insertion_sort_desc_sorted
              reversed_sort_desc_permutation reversed_sort_desc_sorted)
    as (e & e' & c & c' & He & He' & _ & _ & Hee & _).
  - cbn. lia.
  - exists e, e'. repeat split; assumption.
Defined.

(** The measure of the scenario with both objectives. *)
Lemma calc_measure_individual_objectives_witness :
  exists result max_e ass_e,
    calc_measure_individual no_rounding insertion_sort_desc scenario_measure scenario_series
                            (30, 60) true true = Ok result /\
    res_max_emission result = Num max_e /\ res_ass_emission result = Num ass_e /\
    ass_e <= max_e.
Proof.
  destruct (calc_measure_individual no_rounding insertion_sort_desc scenario_measure
                                    scenario_series (30, 60) true true)
    as [result|e] eqn:E.
  - destruct (calc_measure_individual_objectives no_rounding insertion_sort_desc
                insertion_sort_desc_permutation insertion_sort_desc_sorted
                scenario_measure scenario_series (30, 60) result)
      as (max_e & ass_c & max_c & ass_e & H1 & _ & _ & H4 & H5 & _).
    + cbn. lia.
    + exact E.
    + exists result, max_e, ass_e. repeat split; assumption.
  - vm_compute in E. discriminate E.
Defined.

(** The first two blocks of the scenario against the maximum for two
    retrievals a year. *)
Lemma calc_annual_potential_optimal_witness :
  exists q,
    res_max_emission (calc_annual_potential insertion_sort_desc scenario_key
                                            scenario_blocks true false) = Num q /\
    series_sum (map maxEmission (firstn 2 scenario_blocks)) <= q.
Proof.
  eexists. split; [reflexivity|].
  apply (calc_annual_potential_optimal insertion_sort_desc
           insertion_sort_desc_permutation insertion_sort_desc_sorted
           scenario_key scenario_blocks false (firstn 2 scenario_blocks)).
  - cbn. lia.
  - split; [cbn; lia|].
    exists (emission_frame (skipn 2 scenario_blocks)). apply Permutation_refl.
  - reflexivity.
Defined.

(** ** The loop of calc_measure_combo *)

Lemma Forall2_nth_error_l {A B : Type} (R : A -> B -> Prop) (l : list A) (l' : list B)
    (j : nat) (x : A) :
  Forall2 R l l' -> nth_error l j = Some x ->
  exists y, nth_error l' j = Some y /\ R x y.
Proof.
  intro H. revert j. induction H as [|x' y l l' Hxy _ IH]; intros [|j] Hj;
    try discriminate Hj.
  - cbn in Hj. inversion Hj; subst. exists y. split; [reflexivity | exact Hxy].
  - apply IH. exact Hj.
Qed.

Lemma combo_step_combined (measure_lr : Measure) (blocks_li : list Block)
    (state state' : list Block * option MeasureKey) (ix : Z * Block) :
  combo_step measure_lr blocks_li state ix = Ok state' ->
  exists block_li b,
    loc_at blocks_li (fst ix) = Ok block_li /\
    fst state' = fst state ++ [b] /\
    combined (snd ix) block_li b.
Proof.
  unfold combo_step.
  destruct (loc_at blocks_li (fst ix)) as [block_li|e]; cbn [bind]; [|discriminate].
  intro H. inversion H; subst state'; clear H. cbn [fst].
  exists block_li. eexists. split; [reflexivity|]. split; [reflexivity|].
  unfold combined, takes_emission_of, takes_cost_of.
  destruct (Qgt_bool (maxEmission (snd ix)) (maxEmission block_li)) eqn:E1;
    destruct (Qgt_bool (maxCost (snd ix)) (maxCost block_li)) eqn:E2;
    destruct (Qgt_bool (maxEmission block_li) (maxEmission (snd ix))) eqn:E3;
    destruct (Qgt_bool (maxCost block_li) (maxCost (snd ix))) eqn:E4;
    cbn [andb];
    repeat match goal with
           | H : Qgt_bool _ _ = true |- _ => apply Qgt_bool_true in H
           | H : Qgt_bool _ _ = false |- _ => apply Qgt_bool_false in H
           end;
    try (left; repeat split; assumption);
    try (right; left; repeat split; assumption);
    try (right; right; left; repeat split; assumption);
    right; right; right; cbn [maxEmission assocCost maxCost assocEmission];
    (split; [|split; [|split; split; reflexivity]]);
    first [ left; assumption | right; assumption
          | right; apply Qle_antisym; assumption | idtac ].
Qed.

Lemma combo_loop_combined (measure_lr : Measure) (blocks_li : list Block)
    (rows : list (Z * Block)) (state state' : list Block * option MeasureKey) :
  combo_loop measure_lr blocks_li state rows = Ok state' ->
  exists new,
    fst state' = fst state ++ new /\
    Forall2 (fun ix b => exists block_li,
                 loc_at blocks_li (fst ix) = Ok block_li /\
                 combined (snd ix) block_li b)
            rows new.
Proof.
  revert state. induction rows as [|ix rows IH]; intros state H.
  - cbn in H. inversion H. exists []. rewrite app_nil_r. split; [reflexivity | constructor].
  - cbn [combo_loop] in H.
    destruct (combo_step measure_lr blocks_li state ix) as [state1|e] eqn:E;
      cbn [bind] in H; [|discriminate H].
    destruct (combo_step_combined _ _ _ _ _ E) as (block_li & b & Hloc & Hst & Hc).
    destruct (IH state1 H) as (new & Hnew & Hall).
    exists (b :: new). split.
    + rewrite Hnew, Hst, <- app_assoc. reflexivity.
    + constructor; [|exact Hall]. exists block_li. split; assumption.
Qed.

Lemma loc_at_ok {A : Type} (df : list A) (j : nat) (x y : A) :
  loc_at df (Z.of_nat j) = Ok x -> nth_error df j = Some y -> x = y.
Proof.
  intros H Hy. rewrite (loc_at_nth_error df j y Hy) in H. inversion H. reflexivity.
Qed.

(** The combined block of index [j], between the blocks of the same index
    of the two cases. *)
Lemma combo_loop_block (measure_lr : Measure) (blocks_lr blocks_li blocks_combo : list Block)
    (key : option MeasureKey) (j : nat) (block_lr block_li : Block) :
  combo_loop measure_lr blocks_li ([], None) (iterrows blocks_lr) = Ok (blocks_combo, key) ->
  nth_error blocks_lr j = Some block_lr ->
  nth_error blocks_li j = Some block_li ->
  exists b, nth_error blocks_combo j = Some b /\ combined block_lr block_li b.
Proof.
  intros Hloop Hlr Hli.
  destruct (combo_loop_combined _ _ _ _ _ Hloop) as (new & Hnew & Hall).
  cbn [fst app] in Hnew. subst new.
  assert (Hrow : nth_error (iterrows blocks_lr) j = Some (Z.of_nat j, block_lr)).
  { rewrite iterrows_from_0, nth_error_iterrows_from, Hlr. reflexivity. }
  destruct (Forall2_nth_error_l _ _ _ _ _ Hall Hrow) as (b & Hb & block_li' & Hloc & Hc).
  cbn [fst snd] in Hloc, Hc.
  rewrite (loc_at_ok _ _ _ _ Hloc Hli) in Hc.
  exists b. split; assumption.
Qed.

(** X18.  Where the two cases differ in 'max. emission' and in
    'max. cost' at a block index, the combined block has, for each
    objective by itself, the larger maximum of the two blocks with the
    associated value of the same block. *)
Theorem combo_loop_takes_winners (measure_lr : Measure)
    (blocks_lr blocks_li blocks_combo : list Block) (key : option MeasureKey)
    (j : nat) (block_lr block_li : Block) :
  combo_loop measure_lr blocks_li ([], None) (iterrows blocks_lr) = Ok (blocks_combo, key) ->
  nth_error blocks_lr j = Some block_lr ->
  nth_error blocks_li j = Some block_li ->
  ~ maxEmission block_lr == maxEmission block_li ->
  ~ maxCost block_lr == maxCost block_li ->
  exists b,
    nth_error blocks_combo j = Some b /\
    (maxEmission block_li < maxEmission block_lr -> takes_emission_of b block_lr) /\
    (maxEmission block_lr < maxEmission block_li -> takes_emission_of b block_li) /\
    (maxCost block_li < maxCost block_lr -> takes_cost_of b block_lr) /\
    (maxCost block_lr < maxCost block_li -> takes_cost_of b block_li).
Proof.
  intros Hloop Hlr Hli Hne Hnc.
  destruct (combo_loop_block _ _ _ _ _ _ _ _ Hloop Hlr Hli) as (b & Hb & Hc).
  exists b. split; [exact Hb|].
  assert (He : forall x y : Q, x <= y -> y <= x -> x == y)
    by (intros x y; apply Qle_antisym).
  unfold combined, takes_emission_of, takes_cost_of in *.
  destruct Hc as [(H1 & H2 & E) | [(H1 & H2 & E) | [(H1 & H2 & E1 & E2)
                 | (H1 & H2 & E1 & E2)]]];
    try subst b; repeat split; intros; try tauto;
    exfalso;
    repeat match goal with
           | H : _ \/ _ |- _ => destruct H
           end;
    first [ apply Hne; apply Qle_antisym; lra
          | apply Hnc; apply Qle_antisym; lra
          | apply Hnc; lra | apply Hne; lra | lra ].
Qed.

(** X19.  Ties are not resolved for the better.  Where the load reduction
    leads in 'max. emission' while the two 'max. cost' are equal, or where
    the load increase leads in 'max. cost' while the two 'max. emission'
    are equal, the last branch of the loop applies: the combined block
    takes the emission columns of the load increase and the cost columns
    of the load reduction, that is the smaller maximum of the objective
    that was decided. *)
Theorem combo_loop_tie_takes_smaller (measure_lr : Measure)
    (blocks_lr blocks_li blocks_combo : list Block) (key : option MeasureKey)
    (j : nat) (block_lr block_li : Block) :
  combo_loop measure_lr blocks_li ([], None) (iterrows blocks_lr) = Ok (blocks_combo, key) ->
  nth_error blocks_lr j = Some block_lr ->
  nth_error blocks_li j = Some block_li ->
  (maxEmission block_li < maxEmission block_lr /\ maxCost block_lr == maxCost block_li) \/
  (maxEmission block_lr == maxEmission block_li /\ maxCost block_lr < maxCost block_li) ->
  exists b,
    nth_error blocks_combo j = Some b /\
    takes_emission_of b block_li /\ takes_cost_of b block_lr.
Proof.
  intros Hloop Hlr Hli Htie.
  destruct (combo_loop_block _ _ _ _ _ _ _ _ Hloop Hlr Hli) as (b & Hb & Hc).
  exists b. split; [exact Hb|].
  unfold combined in Hc.
  destruct Hc as [(H1 & H2 & E) | [(H1 & H2 & E) | [(H1 & H2 & E1 & E2)
                 | (H1 & H2 & E1 & E2)]]];
    try (split; assumption);
    exfalso; destruct Htie as [[T1 T2] | [T1 T2]]; lra.
Qed.

(** The reduction leads in emission (5 against 3) and the increase in cost
    (4 against 2): the combined block is (5, 1, 4, 9). *)
Lemma combo_loop_takes_winners_witness :
  exists b,
    nth_error [mkBlock 5 1 4 9] 0 = Some b /\
    takes_emission_of b (mkBlock 5 1 2 0) /\ takes_cost_of b (mkBlock 3 7 4 9).
Proof.
  destruct (combo_loop_takes_winners scenario_reduction
              [mkBlock 5 1 2 0] [mkBlock 3 7 4 9] [mkBlock 5 1 4 9]
              (Some (combination_key scenario_reduction)) 0
              (mkBlock 5 1 2 0) (mkBlock 3 7 4 9))
    as (b & Hb & H1 & _ & _ & H4); try reflexivity; try discriminate.
  exists b. split; [exact Hb|]. split; [apply H1 | apply H4]; reflexivity.
Defined.

(** The reduction leads in emission (5 against 3) and the costs are equal:
    the combined block is (3, 7, 2, 0), with the emission of the
    increase. *)
Lemma combo_loop_tie_takes_smaller_witness :
  exists b,
    nth_error [mkBlock 3 7 2 0] 0 = Some b /\
    takes_emission_of b (mkBlock 3 7 2 9) /\ takes_cost_of b (mkBlock 5 1 2 0).
Proof.
  apply (combo_loop_tie_takes_smaller scenario_reduction
           [mkBlock 5 1 2 0] [mkBlock 3 7 2 9] [mkBlock 3 7 2 0]
           (Some (combination_key scenario_reduction)) 0
           (mkBlock 5 1 2 0) (mkBlock 3 7 2 9)); try reflexivity.
  left. split; reflexivity.
Defined.

(** ** calc_reduction_potential *)

Lemma individual_rows_returns (float_round : Q -> Q)
    (sort_values : list (Q * Q) -> list (Q * Q))
    (df_price_emf : list PriceEmf) (avg : Q * Q) (max_co2 max_cost : bool)
    (df_dsm : list Measure) (final_results results : list AnnualResult) :
  individual_rows float_round sort_values df_price_emf avg max_co2 max_cost
                  df_dsm final_results = Ok results ->
  exists rows, results = final_results ++ rows /\ Forall2 result_of df_dsm rows.
Proof.
  revert final_results. induction df_dsm as [|m df_dsm IH]; intros final_results H.
  - cbn [individual_rows] in H. inversion H. exists []. rewrite app_nil_r.
    split; [reflexivity | constructor].
  - cbn [individual_rows] in H. unfold calc_measure_individual at 1 in H.
    destruct (calc_blocks float_round m df_price_emf avg) as [blocks|e]; cbn [bind] in H;
      [|discriminate].
    destruct (IH _ H) as (rows & E & Hall).
    eexists (_ :: rows). rewrite E, <- app_assoc. split; [reflexivity|].
    constructor; [|exact Hall]. repeat split.
Qed.

(** X20.  Without the combination, whenever [calc_reduction_potential]
    returns, it returns one row per measure, in the order of the measures,
    each with the identity of its measure. *)
Theorem calc_reduction_potential_plain (float_round : Q -> Q)
    (sort_values : list (Q * Q) -> list (Q * Q))
    (df_dsm : list Measure) (df_price_emf : list PriceEmf) (avg : Q * Q)
    (max_co2 max_cost : bool) (rows : list AnnualResult) :
  calc_reduction_potential float_round sort_values df_dsm df_price_emf avg
                           max_co2 max_cost false = Ok rows ->
  Forall2 result_of df_dsm rows.
Proof.
  unfold calc_reduction_potential. intro H.
  destruct (individual_rows_returns _ _ _ _ _ _ _ _ _ H) as (rows' & E & Hall).
  cbn [app] in E. subst rows'. exact Hall.
Qed.

Lemma filter_nothing {A : Type} (f : A -> bool) (l : list A) :
  (forall x, In x l -> f x = false) -> filter f l = [].
Proof.
  induction l as [|x l IH]; intro H; [reflexivity|].
  cbn [filter]. rewrite (H x (or_introl eq_refl)). apply IH.
  intros y Hy. apply H. right. exact Hy.
Qed.

Lemma filter_everything {A : Type} (f : A -> bool) (l : list A) :
  (forall x, In x l -> f x = true) -> filter f l = l.
Proof.
  induction l as [|x l IH]; intro H; [reflexivity|].
  cbn [filter]. rewrite (H x (or_introl eq_refl)). f_equal. apply IH.
  intros y Hy. apply H. right. exact Hy.
Qed.

(** X21.  When no two measures share the columns 'TP', 'name', 'scope',
    'maximization' and 'retrieval frequency', asking for the combination
    changes nothing: the result, or the exception, is the one of the call
    without it. *)
Theorem calc_reduction_potential_no_pair (float_round : Q -> Q)
    (sort_values : list (Q * Q) -> list (Q * Q))
    (df_dsm : list Measure) (df_price_emf : list PriceEmf) (avg : Q * Q)
    (max_co2 max_cost : bool) :
  (forall m, In m df_dsm -> duplicated df_dsm m = false) ->
  calc_reduction_potential float_round sort_values df_dsm df_price_emf avg
                           max_co2 max_cost true
  = calc_reduction_potential float_round sort_values df_dsm df_price_emf avg
                             max_co2 max_cost false.
Proof.
  intro H. unfold calc_reduction_potential, drop_duplicates.
  rewrite (filter_nothing (duplicated df_dsm) df_dsm H). cbn [filter combo_rows bind].
  rewrite filter_everything; [reflexivity|].
  intros m Hm. rewrite (H m Hm). reflexivity.
Qed.

(** X22.  With the combination, the measures that share their key with
    another one are taken out of the individual loop, and only those among
    them that are load reductions start a computation.  When none of them
    is a load reduction, they get no row at all: the call gives what the
    call without combination gives on the measures of unique key. *)
Theorem calc_reduction_potential_drops_rows (float_round : Q -> Q)
    (sort_values : list (Q * Q) -> list (Q * Q))
    (df_dsm : list Measure) (df_price_emf : list PriceEmf) (avg : Q * Q)
    (max_co2 max_cost : bool) :
  (forall m, In m df_dsm -> duplicated df_dsm m = true ->
             load_change m <> load_reduction) ->
  calc_reduction_potential float_round sort_values df_dsm df_price_emf avg max_co2 max_cost true
  = calc_reduction_potential float_round sort_values (drop_duplicates df_dsm) df_price_emf avg
                             max_co2 max_cost false.
Proof.
  intro H. unfold calc_reduction_potential.
  rewrite (filter_nothing (fun m => load_change_eqb (load_change m) load_reduction)).
  - reflexivity.
  - intros m Hm. apply filter_In in Hm. destruct Hm as [Hin Hdup].
    specialize (H m Hin Hdup). destruct (load_change m); try reflexivity.
    contradiction.
Qed.

Lemma same_key_refl (m : Measure) : same_key m m = true.
Proof.
  unfold same_key. rewrite !String.eqb_refl, Z.eqb_refl.
  destruct (scope m), (maximization m); reflexivity.
Qed.

Lemma same_key_sym (a b : Measure) : same_key a b = same_key b a.
Proof.
  unfold same_key.
  rewrite (String.eqb_sym (TP a)), (String.eqb_sym (name a)),
    (Z.eqb_sym (retrieval_frequency a)).
  destruct (scope a), (scope b), (maximization a), (maximization b); reflexivity.
Qed.

Lemma bind_Ok {A : Type} (m : Py A) : (x <- m ;; Ok x) = m.
Proof. destruct m; reflexivity. Qed.

(** X23.  For a load reduction and a load increase that share their key
    and are the only measures, in either order, the call with the
    combination is the call of [calc_measure_combo] on the pair, started
    with no result: neither of the two is computed a second time by the
    individual loop. *)
Theorem calc_reduction_potential_pair (float_round : Q -> Q)
    (sort_values : list (Q * Q) -> list (Q * Q))
    (measure_lr measure_li : Measure) (df_price_emf : list PriceEmf) (avg : Q * Q)
    (max_co2 max_cost : bool) (df_dsm : list Measure) :
  load_change measure_lr = load_reduction ->
  load_change measure_li = load_increase ->
  same_key measure_lr measure_li = true ->
  df_dsm = [measure_lr; measure_li] \/ df_dsm = [measure_li; measure_lr] ->
  calc_reduction_potential float_round sort_values df_dsm df_price_emf avg max_co2 max_cost true
  = calc_measure_combo float_round sort_values measure_lr measure_li df_price_emf avg []
                       max_co2 max_cost.
Proof.
  intros Hlr Hli Hkey Hdf.
  assert (Hkey' : same_key measure_li measure_lr = true)
    by (rewrite same_key_sym; exact Hkey).
  unfold calc_reduction_potential, drop_duplicates.
  destruct Hdf as [E | E]; subst df_dsm; unfold duplicated;
    repeat first
      [ rewrite same_key_refl | rewrite Hkey | rewrite Hkey' | rewrite Hlr | rewrite Hli
      | progress cbn [filter List.length Nat.ltb Nat.leb negb load_change_eqb
                      combo_rows calc_measure_combo_squeezed individual_rows] ];
    destruct (calc_measure_combo float_round sort_values measure_lr measure_li
                                 df_price_emf avg [] max_co2 max_cost); reflexivity.
Qed.

(** X24.  With the combination, a load reduction that shares its key with
    other measures none of which is a load increase makes the call fail:
    the frame of its partners is empty, and the comparison of a column of
    that frame in [calc_load_change] raises. *)
Theorem calc_reduction_potential_unpaired (float_round : Q -> Q)
    (sort_values : list (Q * Q) -> list (Q * Q))
    (df_dsm : list Measure) (df_price_emf : list PriceEmf) (avg : Q * Q)
    (max_co2 max_cost : bool) (measure_lr : Measure) :
  In measure_lr df_dsm ->
  duplicated df_dsm measure_lr = true ->
  load_change measure_lr = load_reduction ->
  (forall m, In m df_dsm -> duplicated df_dsm m = true ->
             load_change m <> load_increase) ->
  exists e,
    calc_reduction_potential float_round sort_values df_dsm df_price_emf avg
                             max_co2 max_cost true
    = Raise e.
Proof.
  intros Hin Hdup Hlr Hnone. unfold calc_reduction_potential.
  rewrite (filter_nothing (fun m => load_change_eqb (load_change m) load_increase)).
  2:{ intros m Hm. apply filter_In in Hm. destruct Hm as [Hm Hd].
      specialize (Hnone m Hm Hd). destruct (load_change m); try reflexivity.
      contradiction. }
  destruct (filter (fun m => load_change_eqb (load_change m) load_reduction)
                   (filter (duplicated df_dsm) df_dsm)) as [|first rest] eqn:E.
  - exfalso.
    assert (Hf : In measure_lr
                   (filter (fun m => load_change_eqb (load_change m) load_reduction)
                           (filter (duplicated df_dsm) df_dsm))).
    { apply filter_In. split; [apply filter_In; split; assumption|].
      rewrite Hlr. reflexivity. }
    rewrite E in Hf. destruct Hf.
  - cbn [combo_rows filter calc_measure_combo_squeezed].
    destruct (calc_blocks float_round first df_price_emf avg) as [blocks|e]; cbn [bind];
      eexists; reflexivity.
Qed.

(** The measure of the scenario and its load reduction, without the
    combination: two rows, the one of the increase first. *)
Lemma calc_reduction_potential_plain_witness :
  exists rows,
    calc_reduction_potential no_rounding insertion_sort_desc
                             [scenario_measure; scenario_reduction]
                             scenario_series (30, 60) true false false = Ok rows /\
    Forall2 result_of [scenario_measure; scenario_reduction] rows.
Proof.
  destruct (calc_reduction_potential no_rounding insertion_sort_desc
              [scenario_measure; scenario_reduction] scenario_series (30, 60)
              true false false) as [rows|e] eqn:E.
  - exists rows. split; [reflexivity|].
    apply (calc_reduction_potential_plain no_rounding insertion_sort_desc
             [scenario_measure; scenario_reduction] scenario_series (30, 60)
             true false rows E).
  - vm_compute in E. discriminate E.
Defined.

(** One measure alone has no partner. *)
Lemma calc_reduction_potential_no_pair_witness :
  calc_reduction_potential no_rounding insertion_sort_desc [scenario_measure]
                           scenario_series (30, 60) true false true
  = calc_reduction_potential no_rounding insertion_sort_desc [scenario_measure]
                             scenario_series (30, 60) true false false.
Proof.
  apply calc_reduction_potential_no_pair.
  intros m [E | []]. subst m. reflexivity.
Defined.

(** Twice the load increase of the scenario: no row is returned. *)
Lemma calc_reduction_potential_drops_rows_witness :
  calc_reduction_potential no_rounding insertion_sort_desc [scenario_measure; scenario_measure]
                           scenario_series (30, 60) true false true
  = Ok [].
Proof.
  rewrite calc_reduction_potential_drops_rows.
  - reflexivity.
  - intros m [E | [E | []]] _; subst m; discriminate.
Defined.

(** The pair of the scenario. *)
Lemma calc_reduction_potential_pair_witness :
  calc_reduction_potential no_rounding insertion_sort_desc
                           [scenario_measure; scenario_reduction]
                           scenario_series (30, 60) true false true
  = calc_measure_combo no_rounding insertion_sort_desc scenario_reduction scenario_measure
                       scenario_series (30, 60) [] true false.
Proof.
  apply calc_reduction_potential_pair; try reflexivity.
  right. reflexivity.
Defined.

(** Twice the load reduction of the scenario. *)
Lemma calc_reduction_potential_unpaired_witness :
  exists e,
    calc_reduction_potential no_rounding insertion_sort_desc
                             [scenario_reduction; scenario_reduction]
                             scenario_series (30, 60) true false true
    = Raise e.
Proof.
  apply (calc_reduction_potential_unpaired no_rounding insertion_sort_desc
           [scenario_reduction; scenario_reduction] scenario_series (30, 60) true false
           scenario_reduction).
  - left. reflexivity.
  - reflexivity.
  - reflexivity.
  - intros m [E | [E | []]] _; subst m; discriminate.
Defined.

(** ** add_row and read_and_adapt_dsm *)

(** X25.  [add_row] rejects a scope, a maximization or a load change
    outside its three sets with [ValueError], before it reads the table
    row: whatever the row holds, and whatever the frame. *)
Theorem add_row_rejects (row : CsvRow) (df : list Measure)
    (scope maximization load_change : string) :
  member scope valid_scope = false \/
  member maximization valid_maximization = false \/
  member load_change valid_load_change = false ->
  add_row row df scope maximization load_change = Raise ValueError.
Proof.
  intro H. unfold add_row.
  destruct (member scope valid_scope), (member maximization valid_maximization),
    (member load_change valid_load_change); try reflexivity.
  destruct H as [H | [H | H]]; discriminate H.
Qed.

(** The scope is written in German. *)
Lemma add_row_rejects_witness :
  add_row (mkCsvRow [] []) [] "Potential" "power" "load increase" = Raise ValueError.
Proof.
  apply add_row_rejects. left. reflexivity.
Defined.

(** What [add_row] does when it returns. *)
Lemma add_row_ok (row : CsvRow) (df df' : list Measure)
    (scope maximization load_change : string) :
  add_row row df scope maximization load_change = Ok df' ->
  exists tp nm p rd ad ct rf_cell rf r,
    getitem (csv_text row) "TP" = Ok tp /\
    getitem (csv_text row) "Name" = Ok nm /\
    getitem (csv_numbers row)
            (case_prefix scope maximization load_change ++ "Leistung [kW]") = Ok p /\
    getitem (csv_numbers row)
            (case_prefix scope maximization load_change ++ "Abrufdauer [h]") = Ok rd /\
    getitem (csv_numbers row)
            (case_prefix scope maximization load_change ++ "Aktivierungsdauer [s]")
    = Ok ad /\
    getitem (csv_numbers row)
            (case_prefix scope maximization load_change ++ "Nachholzeit [h]") = Ok ct /\
    getitem (csv_numbers row)
            (case_prefix scope maximization load_change ++ "Abrufhäufigkeit [1/a]")
    = Ok rf_cell /\
    int_of_float rf_cell = Ok rf /\
    check_and_adapt_dsm
      (mkRawRow tp nm (scope_of scope) (maximization_of maximization)
                (load_change_of load_change) p rd (float_div ad 3600) ct rf) = Ok r /\
    df' = df ++ [r].
Proof.
  unfold add_row.
  destruct (negb (member scope valid_scope) || negb (member maximization valid_maximization)
            || negb (member load_change valid_load_change)); [discriminate|].
  set (prefix := case_prefix scope maximization load_change).
  destruct (getitem (csv_text row) "TP") as [tp|] eqn:E1; cbn [bind]; [|discriminate].
  destruct (getitem (csv_text row) "Name") as [nm|] eqn:E2; cbn [bind]; [|discriminate].
  destruct (getitem (csv_numbers row) (prefix ++ "Leistung [kW]")) as [p|] eqn:E3;
    cbn [bind]; [|discriminate].
  destruct (getitem (csv_numbers row) (prefix ++ "Abrufdauer [h]")) as [rd|] eqn:E4;
    cbn [bind]; [|discriminate].
  destruct (getitem (csv_numbers row) (prefix ++ "Aktivierungsdauer [s]")) as [ad|] eqn:E5;
    cbn [bind]; [|discriminate].
  destruct (getitem (csv_numbers row) (prefix ++ "Nachholzeit [h]")) as [ct|] eqn:E6;
    cbn [bind]; [|discriminate].
  destruct (getitem (csv_numbers row) (prefix ++ "Abrufhäufigkeit [1/a]"))
    as [rf_cell|] eqn:E7; cbn [bind]; [|discriminate].
  destruct (int_of_float rf_cell) as [rf|] eqn:E8; cbn [bind]; [|discriminate].
  destruct (check_and_adapt_dsm _) as [r|] eqn:Er; cbn [bind]; [|discriminate].
  intro H. inversion H; subst df'; clear H.
  exists tp, nm, p, rd, ad, ct, rf_cell, rf, r. repeat split; assumption.
Qed.

Lemma check_and_adapt_dsm_frame (raw : RawRow) (r : Measure) :
  check_and_adapt_dsm raw = Ok r ->
  TP r = raw_TP raw /\ name r = raw_name raw /\ scope r = raw_scope raw /\
  maximization r = raw_maximization raw /\ load_change r = raw_load_change raw /\
  activation_duration r = fillna (raw_activation_duration raw).
Proof.
  unfold check_and_adapt_dsm.
  destruct (adapt_durations _ _ _) as [[rd' ct'] ad'].
  unfold py_truediv. destruct (Qeq_bool rd' 0); cbn [bind]; [discriminate|].
  intro H. inversion H. repeat split.
Qed.

(** X26.  When [add_row] returns, the frame is the given frame with one
    row more at its end.  The new row has the TP and the name of the table
    row and the scope, maximization and load change that were passed, and
    its activation duration is the number of seconds of the table divided
    by 3600 (0 for NaN), not rounded to the grid. *)
Theorem add_row_appends (row : CsvRow) (df df' : list Measure)
    (scope maximization load_change : string) :
  add_row row df scope maximization load_change = Ok df' ->
  exists tp nm ad r,
    df' = df ++ [r] /\
    getitem (csv_text row) "TP" = Ok tp /\ TP r = tp /\
    getitem (csv_text row) "Name" = Ok nm /\ name r = nm /\
    case_of r scope maximization load_change /\
    getitem (csv_numbers row)
            (case_prefix scope maximization load_change ++ "Aktivierungsdauer [s]")
    = Ok ad /\
    activation_duration r = fillna (float_div ad 3600).
Proof.
  intro H.
  destruct (add_row_ok _ _ _ _ _ _ H)
    as (tp & nm & p & rd & ad & ct & rf_cell & rf & r
        & Htp & Hnm & _ & _ & Had & _ & _ & _ & Hr & Hdf).
  destruct (check_and_adapt_dsm_frame _ _ Hr) as (F1 & F2 & F3 & F4 & F5 & F6).
  exists tp, nm, ad, r. unfold case_of. repeat split; assumption.
Qed.

(** The load reduction of the table row with an activation of 180 s. *)
Lemma add_row_appends_witness :
  exists r,
    add_row table_row [] "potential" "power" "load reduction" = Ok [r] /\
    activation_duration r = fillna (float_div (fin 180) 3600).
Proof.
  destruct (add_row table_row [] "potential" "power" "load reduction") as [df'|e] eqn:E.
  - destruct (add_row_appends _ _ _ _ _ _ E)
      as (tp & nm & ad & r & Hdf & _ & _ & _ & _ & _ & Had & Hr).
    exists r. subst df'. split; [reflexivity|].
    rewrite Hr. vm_compute in Had. inversion Had. reflexivity.
  - vm_compute in E. discriminate E.
Defined.

(** X27.  A case whose power is given but whose retrieval frequency is
    NaN makes [add_row] raise [ValueError]: the strings being valid and
    the columns of the case present, the conversion of the frequency to an
    integer fails before the row is checked. *)
Theorem add_row_frequency_nan (row : CsvRow) (df : list Measure)
    (scope maximization load_change tp nm : string) (p rd ad ct : pyfloat) :
  member scope valid_scope = true ->
  member maximization valid_maximization = true ->
  member load_change valid_load_change = true ->
  getitem (csv_text row) "TP" = Ok tp ->
  getitem (csv_text row) "Name" = Ok nm ->
  getitem (csv_numbers row)
          (case_prefix scope maximization load_change ++ "Leistung [kW]") = Ok p ->
  getitem (csv_numbers row)
          (case_prefix scope maximization load_change ++ "Abrufdauer [h]") = Ok rd ->
  getitem (csv_numbers row)
          (case_prefix scope maximization load_change ++ "Aktivierungsdauer [s]") = Ok ad ->
  getitem (csv_numbers row)
          (case_prefix scope maximization load_change ++ "Nachholzeit [h]") = Ok ct ->
  getitem (csv_numbers row)
          (case_prefix scope maximization load_change ++ "Abrufhäufigkeit [1/a]") = Ok nan ->
  add_row row df scope maximization load_change = Raise ValueError.
Proof.
  intros V1 V2 V3 Htp Hnm Hp Hrd Had Hct Hrf. unfold add_row.
  rewrite V1, V2, V3. cbn [negb orb].
  rewrite Htp, Hnm. cbn [bind]. rewrite Hp. cbn [bind]. rewrite Hrd. cbn [bind].
  rewrite Had. cbn [bind]. rewrite Hct. cbn [bind]. rewrite Hrf. reflexivity.
Qed.

(** A load increase with a power and no other value. *)
Lemma add_row_frequency_nan_witness :
  add_row
    (mkCsvRow
       [("TP", "TP1"); ("Name", "measure")]%string
       [("Potential_maxLeistung_LE_Leistung [kW]", fin 10);
        ("Potential_maxLeistung_LE_Abrufdauer [h]", nan);
        ("Potential_maxLeistung_LE_Aktivierungsdauer [s]", nan);
        ("Potential_maxLeistung_LE_Nachholzeit [h]", nan);
        ("Potential_maxLeistung_LE_Abrufhäufigkeit [1/a]", nan)]%string)
    [] "potential" "power" "load increase"
  = Raise ValueError.
Proof.
  apply (add_row_frequency_nan _ _ _ _ _ "TP1"%string "measure"%string
                               (fin 10) nan nan nan); reflexivity.
Defined.

(** X28.  The eight tests of [read_and_adapt_dsm] agree with [add_row]:
    each one passes three strings that [add_row] accepts and looks at the
    power column that [add_row] then reads for these strings, and the
    eight columns are different. *)
Theorem eight_cases_agree_with_add_row :
  Forall (fun c =>
            member (fst (fst (snd c))) valid_scope = true /\
            member (snd (fst (snd c))) valid_maximization = true /\
            member (snd (snd c)) valid_load_change = true /\
            (case_prefix (fst (fst (snd c))) (snd (fst (snd c))) (snd (snd c))
             ++ "Leistung [kW]")%string = fst c)
         eight_cases /\
  NoDup (map fst eight_cases).
Proof.
  split.
  - repeat constructor.
  - repeat constructor; cbn; intro H;
      repeat match goal with
             | H : _ \/ _ |- _ => destruct H
             | H : _ = _ |- _ => discriminate H
             | H : False |- _ => destruct H
             end.
Qed.

Lemma add_row_length (row : CsvRow) (df df' : list Measure) (s m l : string) :
  add_row row df s m l = Ok df' ->
  List.length df' = S (List.length df) /\
  (Forall checked_case df -> Forall checked_case df').
Proof.
  intro H.
  destruct (add_row_ok _ _ _ _ _ _ H)
    as (tp & nm & p & rd & ad & ct & rf_cell & rf & r & _ & _ & _ & _ & _ & _ & _ & _
        & Hr & Hdf).
  subst df'. split; [rewrite length_app; cbn; lia|].
  intro Hall. apply Forall_app. split; [exact Hall|]. constructor; [|constructor].
  split; [|eexists; exact Hr].
  destruct (check_and_adapt_dsm_frame _ _ Hr) as (_ & _ & _ & _ & F5 & _).
  rewrite F5. cbn [raw_load_change]. unfold load_change_of.
  destruct (String.eqb l "load increase"); [left | right]; reflexivity.
Qed.

Lemma add_cases_length (row : CsvRow) (cases : list (string * (string * string * string)))
    (df df' : list Measure) :
  add_cases row cases df = Ok df' ->
  List.length df' = (List.length df + defined_cases cases row)%nat /\
  (Forall checked_case df -> Forall checked_case df').
Proof.
  revert df. induction cases as [|[column [[s m] l]] cases IH]; intros df H.
  - cbn in H. inversion H. unfold defined_cases. cbn. split; [lia | tauto].
  - cbn [add_cases] in H. unfold defined_cases. cbn [filter fst].
    destruct (getitem (csv_numbers row) column) as [cell|e]; cbn [bind] in H;
      [|discriminate H].
    destruct (negb (isnan cell)).
    + destruct (add_row row df s m l) as [df1|e] eqn:E; cbn [bind] in H; [|discriminate H].
      destruct (add_row_length _ _ _ _ _ _ E) as [L1 C1].
      destruct (IH df1 H) as [L2 C2]. fold (defined_cases cases row).
      unfold defined_cases in *. cbn [List.length]. split; [lia | tauto].
    + cbn [bind] in H. destruct (IH df H) as [L2 C2].
      unfold defined_cases in *. split; [lia | tauto].
Qed.

Lemma read_rows_length (df : list CsvRow) (df_new df_new' : list Measure) :
  read_rows df df_new = Ok df_new' ->
  List.length df_new'
  = (List.length df_new + list_sum (map (defined_cases eight_cases) df))%nat /\
  (Forall checked_case df_new -> Forall checked_case df_new').
Proof.
  revert df_new. induction df as [|row df IH]; intros df_new H.
  - cbn in H. inversion H. cbn. split; [lia | tauto].
  - cbn [read_rows] in H.
    destruct (add_cases row eight_cases df_new) as [df1|e] eqn:E; cbn [bind] in H;
      [|discriminate H].
    destruct (add_cases_length _ _ _ _ E) as [L1 C1].
    destruct (IH df1 H) as [L2 C2]. cbn [map list_sum fold_right].
    split; [|tauto].
    rewrite L2, L1. change (fold_right Nat.add 0%nat (map (defined_cases eight_cases) df))
      with (list_sum (map (defined_cases eight_cases) df)). lia.
Qed.

(** X29.  When [read_and_adapt_dsm] returns, the frame has one row for
    every case of every table row whose power is not NaN, and no other
    row: a table row with no power at all gives nothing.  Every row of the
    frame was returned by [check_and_adapt_dsm] and is a load increase or
    a load reduction. *)
Theorem read_and_adapt_dsm_rows (df : list CsvRow) (df_new : list Measure) :
  read_and_adapt_dsm df = Ok df_new ->
  List.length df_new = list_sum (map (defined_cases eight_cases) df) /\
  Forall checked_case df_new.
Proof.
  intro H. destruct (read_rows_length _ _ _ H) as [L C].
  split; [exact L | apply C; constructor].
Qed.

(** The table row above and a row without any power: one case. *)
Lemma read_and_adapt_dsm_rows_witness :
  exists df_new,
    read_and_adapt_dsm
      [table_row;
       mkCsvRow [("TP", "TP2"); ("Name", "other")]%string
                (map (fun c => (fst c, nan)) eight_cases)] = Ok df_new /\
    List.length df_new = 1%nat.
Proof.
  destruct (read_and_adapt_dsm _) as [df_new|e] eqn:E.
  - exists df_new. split; [reflexivity|].
    destruct (read_and_adapt_dsm_rows _ _ E) as [L _]. rewrite L. reflexivity.
  - vm_compute in E. discriminate E.
Defined.

(** ** The empty series *)

(** X30.  On a series without records no measure is computed: the first
    measure that is reached raises [ValueError] in [blocks_quarter_hour].
    [calc_measure_combo] raises it for every pair, before its loop over
    the blocks; [calc_reduction_potential] without the combination raises
    it as soon as there is one measure and returns no row when there is
    none; with the combination it raises it or returns no row. *)
Theorem calc_reduction_potential_empty_series (float_round : Q -> Q)
    (sort_values : list (Q * Q) -> list (Q * Q))
    (df_dsm : list Measure) (avg : Q * Q) (max_co2 max_cost : bool) :
  (forall measure_lr measure_li final_results,
      calc_measure_combo float_round sort_values measure_lr measure_li [] avg
                         final_results max_co2 max_cost
      = Raise ValueError) /\
  calc_reduction_potential float_round sort_values df_dsm [] avg max_co2 max_cost false
  = match df_dsm with
    | [] => Ok []
    | _ :: _ => Raise ValueError
    end /\
  (calc_reduction_potential float_round sort_values df_dsm [] avg max_co2 max_cost true
   = Ok [] \/
   calc_reduction_potential float_round sort_values df_dsm [] avg max_co2 max_cost true
   = Raise ValueError).
Proof.
  split; [reflexivity|]. split.
  - destruct df_dsm; reflexivity.
  - unfold calc_reduction_potential.
    destruct (filter (fun m => load_change_eqb (load_change m) load_reduction)
                     (filter (duplicated df_dsm) df_dsm)) as [|measure_lr rest].
    + cbn [combo_rows bind]. destruct (drop_duplicates df_dsm); [left | right]; reflexivity.
    + right. cbn [combo_rows]. unfold calc_measure_combo_squeezed.
      destruct (filter (same_key measure_lr) _) as [|measure_li [|other matches]];
        reflexivity.
Qed.
